(** * exec_path_args: a launcher for one child process

    A shallow embedding of [src/exec_path_args.cxx], [src/pipe_helper.cxx]
    and [src/syscall_helper.cxx] (with their headers), and the properties of
    the launcher's state machine, its pipe pairs and its syscall checker.

    The C++ code talks to the operating system at every step.  A member
    function is therefore embedded as a _program_: a finite tree whose inner
    nodes are the OS calls the code makes, in the order it makes them, and
    whose branches are indexed by what the OS answers.  Exceptions are
    explicit results, and the object [*this] is passed in and out. *)

From Stdlib Require Import ZArith Bool Ascii String DecimalString List Lia.
Import ListNotations.
Local Open Scope string_scope.
Local Open Scope list_scope.
Local Open Scope Z_scope.

(** ** Strings and integers *)

(** [std::string]: a sequence of [char]s, which may contain NUL. *)
Definition std_string : Type := list ascii.

(** A string literal of the source. *)
Definition lit (s : string) : std_string := list_ascii_of_string s.

Definition NUL : ascii := zero.

(** The character [0x22], the double quote. *)
Definition dquote : ascii := ascii_of_nat 34.

(** [s.size()], as a [Z]. *)
Definition size (s : std_string) : Z := Z.of_nat (length s).

(** [s.c_str()] read as a C string, and so [strdup (s.c_str ())]: the
    characters up to the first NUL. *)
Fixpoint c_str (s : std_string) : std_string :=
  match s with
  | [] => []
  | c :: r => if Ascii.eqb c NUL then [] else c :: c_str r
  end.

(** [buffer.resize (n)]: cut, or fill up with NUL characters. *)
Definition resize (s : std_string) (n : Z) : std_string :=
  firstn (Z.to_nat n) s ++ repeat NUL (Z.to_nat n - length s).

(** [int] has 32 bits, [ssize_t], [size_t] and [long long] have 64 (LP64). *)
Definition INT_MIN : Z := - 2 ^ 31.
Definition INT_MAX : Z := 2 ^ 31 - 1.

(** [static_cast<int> (z)] for [z] of a signed type at least as wide. *)
Definition static_cast_int (z : Z) : Z := (z + 2 ^ 31) mod 2 ^ 32 - 2 ^ 31.

(** The result of an operation on [long] or [long long] operands, both 64
    bits wide: what does not fit wraps around, as the compiled code has
    it. *)
Definition wrap_long (z : Z) : Z := (z + 2 ^ 63) mod 2 ^ 64 - 2 ^ 63.

Arguments wrap_long : simpl never.

(** Conversion to [size_t], as in [buffer.size () - consumed_bytes], where the
    signed operand is converted and the difference is taken modulo [2^64]. *)
Definition to_size_t (z : Z) : Z := z mod 2 ^ 64.

(** [std::to_string (int)]. *)
Definition to_string (z : Z) : std_string :=
  lit (NilZero.string_of_int (Z.to_int z)).

(** ** Constants of the platform (Linux, [<unistd.h>] and friends) *)

Definition invalid_fd : Z := -1.        (* native_fd_t.hxx *)
Definition STDIN_FILENO : Z := 0.
Definition STDOUT_FILENO : Z := 1.
Definition STDERR_FILENO : Z := 2.
Definition EXIT_FAILURE : Z := 1.
Definition SIGKILL : Z := 9.
Definition EINTR : Z := 4.
Definition EIO : Z := 5.
Definition EBADF : Z := 9.
Definition POLLIN : Z := 1.
Definition FIONREAD : Z := 21531.       (* 0x541B *)
Definition P_PID : Z := 1.
Definition WNOHANG : Z := 1.
Definition WEXITED : Z := 4.
Definition CLD_EXITED : Z := 1.
Definition CLD_KILLED : Z := 2.
Definition CLD_DUMPED : Z := 3.
Definition SYS_pidfd_open : Z := 434.
Definition CLOCK_MONOTONIC : Z := 1.

(** The fields of [siginfo_t] that [query_status] reads. *)
Record siginfo_t : Type := mk_siginfo {
  si_pid : Z;
  si_code : Z;
  si_status : Z
}.

(** [siginfo_t status{}]. *)
Definition siginfo_zero : siginfo_t := mk_siginfo 0 0 0.

(** A [char *] as [execv] reads it: null, or the C string it points to; a
    cell of a fresh [new char *[n]] holds neither yet. *)
Inductive char_ptr : Type :=
| nullptr
| ptr_to (s : std_string)
| indeterminate.

(** ** The calls into the operating system and libc

    [syscall R] is a call whose answer has type [R]: the return value,
    together with what the call stored through its pointer arguments. *)
Inductive syscall : Type -> Type :=
| sys_pipe (fds : Z * Z) : syscall (Z * (Z * Z))
    (* pipe (fds): return value, and the array afterwards *)
| sys_fork : syscall Z
| sys_close (fd : Z) : syscall Z
| sys_dup2 (oldfd newfd : Z) : syscall Z
| sys_execv (path : char_ptr) (argv : list char_ptr) : syscall Z
    (* answers only when the image was not replaced *)
| sys_syscall (number arg1 arg2 : Z) : syscall Z
    (* syscall (number, arg1, arg2), a long *)
| sys_poll (fd events timeout : Z) : syscall Z
| sys_write (fd : Z) (buf : std_string) (count : Z) : syscall Z
| sys_ioctl (fd request arg : Z) : syscall (Z * Z)
    (* ioctl (fd, request, &arg): return value, and arg afterwards *)
| sys_read (fd count : Z) : syscall (Z * std_string)
    (* read (fd, buf, count): return value, and the bytes stored at buf *)
| sys_kill (pid sig : Z) : syscall Z
| sys_waitid (idtype id : Z) (status : siginfo_t) (options : Z)
    : syscall (Z * siginfo_t)
| sys_clock_gettime (clk : Z) : syscall (Z * Z)
    (* tv_sec and tv_nsec afterwards; the return value is not looked at *)
| get_errno : syscall Z
| libc_strerror (errnum : Z) : syscall std_string
| cerr_write (text : std_string) : syscall unit.

(** How a process stops without returning to its caller. *)
Inductive stop : Type :=
| exited (status : Z)      (* std::_Exit *)
| terminated               (* std::terminate, from a noexcept function *)
| out_of_fuel.             (* the bound of the model on a loop was reached *)

(** Programs over the calls above. *)
Inductive prog (A : Type) : Type :=
| Ret (a : A)
| Sys {R : Type} (c : syscall R) (k : R -> prog A)
| Stop (why : stop).

Arguments Ret {A} a.
Arguments Sys {A R} c k.
Arguments Stop {A} why.

Fixpoint bind {A B : Type} (p : prog A) (f : A -> prog B) : prog B :=
  match p with
  | Ret a => f a
  | Sys c k => Sys c (fun r => bind (k r) f)
  | Stop why => Stop why
  end.

Notation "x <- p ;; q" := (bind p (fun x => q))
  (at level 61, p at next level, right associativity).
Notation "' pat <- p ;; q" := (bind p (fun x => match x with pat => q end))
  (at level 61, pat pattern, p at next level, right associativity).

Definition call {R : Type} (c : syscall R) : prog R := Sys c Ret.

(** *** Running a program against an operating system

    An operating system is any function that answers each call, with a state
    [W] of its own.  [run] is what the calling process sees. *)
Definition os (W : Type) : Type := forall R : Type, syscall R -> W -> R * W.

Inductive result (A : Type) : Type :=
| Done (a : A)
| Stopped (why : stop).

Arguments Done {A} a.
Arguments Stopped {A} why.

Fixpoint run {W A : Type} (h : os W) (p : prog A) (w : W) : result A * W :=
  match p with
  | Ret a => (Done a, w)
  | Sys c k => let (r, w') := h _ c w in run h (k r) w'
  | Stop why => (Stopped why, w)
  end.

(** ** Exceptions

    Every [throw] of the source throws a [std::runtime_error]; [kind] records
    which class of failure the throwing site belongs to: a call made in the
    wrong lifecycle state or without a process, a failed OS call (thrown by
    [check_syscall_ret_val]), a short read, or a failed consistency check. *)
Inductive error_kind : Type :=
| InvalidState
| SyscallError
| ShortRead
| Fatal.

Record exception : Type := runtime_error {
  kind : error_kind;
  what : std_string
}.

Inductive outcome (A : Type) : Type :=
| returned (a : A)
| thrown (e : exception).

Arguments returned {A} a.
Arguments thrown {A} e.

(** ** syscall_helper.cxx *)

(** [current_errno ()]. *)
Definition current_errno : prog Z := call get_errno.

Definition syscall_error_text (file : std_string) (line syscall_ret errno_val : Z)
    (cause : std_string) : std_string :=
  file ++ lit ":" ++ to_string line ++ lit ": syscall failed - return code "
    ++ to_string syscall_ret ++ lit ", errno " ++ to_string errno_val
    ++ lit " ~ " ++ [dquote] ++ cause ++ [dquote].

Definition check_syscall_ret_val (file : std_string) (line syscall_ret : Z)
    : prog (outcome unit) :=
  if syscall_ret <? 0 then
    errno_val <- current_errno ;;
    cause <- call (libc_strerror errno_val) ;;
    Ret (thrown (runtime_error SyscallError
                   (syscall_error_text file line syscall_ret errno_val cause)))
  else Ret (returned tt).

(** [syscall_helper<ret_t>]: the value is checked as an [int] and handed
    back as it came. *)
Definition syscall_helper (file : std_string) (line syscall_ret : Z)
    : prog (outcome Z) :=
  o <- check_syscall_ret_val file line (static_cast_int syscall_ret) ;;
  match o with
  | thrown e => Ret (thrown e)
  | returned _ => Ret (returned syscall_ret)
  end.

(** [EXEC_PATH_ARGS_SYSCALL_HELPER (fn)]: the expression [fn] is evaluated,
    then its value is checked, with the place of the macro as [__FILE__] and
    [__LINE__]; [ret_of] is the return value within what [fn] yields. *)
Definition SYSCALL_HELPER {R : Type} (file : std_string) (line : Z)
    (fn : prog R) (ret_of : R -> Z) : prog (outcome R) :=
  r <- fn ;;
  o <- syscall_helper file line (ret_of r) ;;
  match o with
  | thrown e => Ret (thrown e)
  | returned _ => Ret (returned r)
  end.

(** ** Member functions

    A member function of a class [S] that returns an [A] is a program from
    the object before the call to the outcome and the object afterwards. *)
Definition method (S A : Type) : Type := S -> prog (outcome A * S).

Definition mret {S A : Type} (a : A) : method S A :=
  fun this => Ret (returned a, this).

Definition throw {S A : Type} (e : exception) : method S A :=
  fun this => Ret (thrown e, this).

Definition mbind {S A B : Type} (m : method S A) (f : A -> method S B)
    : method S B :=
  fun this =>
    '(o, this') <- m this ;;
    match o with
    | returned a => f a this'
    | thrown e => Ret (thrown e, this')
    end.

Notation "x <-- m ;;; k" := (mbind m (fun x => k))
  (at level 61, m at next level, right associativity).
Notation "' pat <-- m ;;; k" :=
  (mbind m (fun x => match x with pat => k end))
  (at level 61, pat pattern, m at next level, right associativity).
Notation "m ;;; k" := (mbind m (fun _ => k))
  (at level 61, right associativity).

(** The object itself, and an assignment to it. *)
Definition get_this {S : Type} : method S S :=
  fun this => Ret (returned this, this).

Definition modify {S : Type} (f : S -> S) : method S unit :=
  fun this => Ret (returned tt, f this).

(** A program that touches no member. *)
Definition lift {S A : Type} (p : prog (outcome A)) : method S A :=
  fun this => o <- p ;; Ret (o, this).

(** A [noexcept] function of the object. *)
Definition noexcept {S A : Type} (f : S -> prog (A * S)) : method S A :=
  fun this => '(a, this') <- f this ;; Ret (returned a, this').

(** A member function of a member. *)
Definition on_member {S T A : Type} (get : S -> T) (set : S -> T -> S)
    (m : method T A) : method S A :=
  fun this => '(o, t) <- m (get this) ;; Ret (o, set this t).

(** [EXEC_PATH_ARGS_SYSCALL_HELPER (fn)] inside a member function. *)
Definition os_call {S R : Type} (file : std_string) (line : Z)
    (fn : prog R) (ret_of : R -> Z) : method S R :=
  lift (SYSCALL_HELPER file line fn ret_of).

(** ** pipe_helper.cxx *)

Definition LF : ascii := ascii_of_nat 10.

(** [__FILE__] in the two files that use the macro (the path is the one the
    compiler was given). *)
Definition FILE_pipe_helper : std_string := lit "src/pipe_helper.cxx".
Definition FILE_exec_path_args : std_string := lit "src/exec_path_args.cxx".

(** [native_fd_t fds[2]{invalid_fd, invalid_fd}]. *)
Record pipe_helper : Type := mk_pipe_helper {
  fds0 : Z;
  fds1 : Z
}.

Definition pipe_helper_default : pipe_helper :=
  mk_pipe_helper invalid_fd invalid_fd.

Definition get_out (p : pipe_helper) : Z := fds0 p.
Definition get_in (p : pipe_helper) : Z := fds1 p.

(** [close_fd (int &fd)]: the descriptor afterwards. *)
Definition close_fd (fd : Z) : prog Z :=
  if negb (fd =? invalid_fd) then
    r <- call (sys_close fd) ;;
    _ <- (if r =? -1 then
            errno_val <- current_errno ;;
            if errno_val =? EBADF then
              call (cerr_write
                      (lit "`close` failed - invalid file descriptor!" ++ [LF]))
            else if errno_val =? EINTR then
              call (cerr_write
                      (lit "`close` failed - was interrupted by a signal!"
                         ++ [LF]))
            else if errno_val =? EIO then
              call (cerr_write
                      (lit "`close` failed - I/O error occurred!" ++ [LF]))
            else
              _ <- call (cerr_write
                           (lit "`close` failed - by https://linux.die.net/man/2/close unspecified `errno` ")) ;;
              _ <- call (cerr_write (to_string errno_val)) ;;
              call (cerr_write (lit "!" ++ [LF]))
          else Ret tt) ;;
    Ret invalid_fd
  else Ret fd.

Definition swap_pipe_helper (lhs rhs : pipe_helper) : pipe_helper * pipe_helper :=
  (mk_pipe_helper (fds0 rhs) (fds1 rhs), mk_pipe_helper (fds0 lhs) (fds1 lhs)).

Definition init : method pipe_helper unit :=
  fun this =>
    '(r, (a, b)) <- call (sys_pipe (fds0 this, fds1 this)) ;;
    o <- syscall_helper FILE_pipe_helper 66 r ;;
    Ret (match o with
         | thrown e => thrown e
         | returned _ => returned tt
         end, mk_pipe_helper a b).

Definition close_out (this : pipe_helper) : prog (unit * pipe_helper) :=
  fd <- close_fd (fds0 this) ;; Ret (tt, mk_pipe_helper fd (fds1 this)).

Definition close_in (this : pipe_helper) : prog (unit * pipe_helper) :=
  fd <- close_fd (fds1 this) ;; Ret (tt, mk_pipe_helper (fds0 this) fd).

(** [~pipe_helper ()]. *)
Definition pipe_helper_dtor (this : pipe_helper) : prog unit :=
  '(_, this) <- close_out this ;;
  '(_, _) <- close_in this ;;
  Ret tt.

(** [pipe_helper (pipe_helper &&rhs)]: the new object, and [rhs] afterwards. *)
Definition pipe_helper_move (rhs : pipe_helper) : pipe_helper * pipe_helper :=
  (mk_pipe_helper (fds0 rhs) (fds1 rhs), mk_pipe_helper invalid_fd invalid_fd).

(** ** exec_path_args.hxx and exec_path_args.cxx *)

(** [enum class state], spelled as in the source. *)
Inductive state : Type :=
| uninitialzied
| ready
| running
| finished.

Definition state_eqb (a b : state) : bool :=
  match a, b with
  | uninitialzied, uninitialzied
  | ready, ready
  | running, running
  | finished, finished => true
  | _, _ => false
  end.

Record states : Type := mk_states {
  previous : state;
  current : state
}.

Record exec_path_args : Type := mk_exec_path_args {
  path : std_string;
  args : list std_string;
  time_spawned_ns : Z;
  time_finished_ns : Z;
  handle : Z;
  stdin_pipe : pipe_helper;
  stdout_pipe : pipe_helper;
  stderr_pipe : pipe_helper;
  current_state : state;
  return_code : Z;
  stdout_buffer : std_string;
  stdout_consumed_bytes : Z;
  stderr_buffer : std_string;
  stderr_consumed_bytes : Z
}.

(** Assignments to one member. *)
Definition set_time_spawned_ns (v : Z) (t : exec_path_args) : exec_path_args :=
  mk_exec_path_args (path t) (args t) v (time_finished_ns t) (handle t)
    (stdin_pipe t) (stdout_pipe t) (stderr_pipe t) (current_state t)
    (return_code t) (stdout_buffer t) (stdout_consumed_bytes t)
    (stderr_buffer t) (stderr_consumed_bytes t).

Definition set_time_finished_ns (v : Z) (t : exec_path_args) : exec_path_args :=
  mk_exec_path_args (path t) (args t) (time_spawned_ns t) v (handle t)
    (stdin_pipe t) (stdout_pipe t) (stderr_pipe t) (current_state t)
    (return_code t) (stdout_buffer t) (stdout_consumed_bytes t)
    (stderr_buffer t) (stderr_consumed_bytes t).

Definition set_handle (v : Z) (t : exec_path_args) : exec_path_args :=
  mk_exec_path_args (path t) (args t) (time_spawned_ns t) (time_finished_ns t) v
    (stdin_pipe t) (stdout_pipe t) (stderr_pipe t) (current_state t)
    (return_code t) (stdout_buffer t) (stdout_consumed_bytes t)
    (stderr_buffer t) (stderr_consumed_bytes t).

Definition set_stdin_pipe (t : exec_path_args) (v : pipe_helper) : exec_path_args :=
  mk_exec_path_args (path t) (args t) (time_spawned_ns t) (time_finished_ns t)
    (handle t) v (stdout_pipe t) (stderr_pipe t) (current_state t)
    (return_code t) (stdout_buffer t) (stdout_consumed_bytes t)
    (stderr_buffer t) (stderr_consumed_bytes t).

Definition set_stdout_pipe (t : exec_path_args) (v : pipe_helper) : exec_path_args :=
  mk_exec_path_args (path t) (args t) (time_spawned_ns t) (time_finished_ns t)
    (handle t) (stdin_pipe t) v (stderr_pipe t) (current_state t)
    (return_code t) (stdout_buffer t) (stdout_consumed_bytes t)
    (stderr_buffer t) (stderr_consumed_bytes t).

Definition set_stderr_pipe (t : exec_path_args) (v : pipe_helper) : exec_path_args :=
  mk_exec_path_args (path t) (args t) (time_spawned_ns t) (time_finished_ns t)
    (handle t) (stdin_pipe t) (stdout_pipe t) v (current_state t)
    (return_code t) (stdout_buffer t) (stdout_consumed_bytes t)
    (stderr_buffer t) (stderr_consumed_bytes t).

Definition set_current_state (v : state) (t : exec_path_args) : exec_path_args :=
  mk_exec_path_args (path t) (args t) (time_spawned_ns t) (time_finished_ns t)
    (handle t) (stdin_pipe t) (stdout_pipe t) (stderr_pipe t) v
    (return_code t) (stdout_buffer t) (stdout_consumed_bytes t)
    (stderr_buffer t) (stderr_consumed_bytes t).

Definition set_return_code (v : Z) (t : exec_path_args) : exec_path_args :=
  mk_exec_path_args (path t) (args t) (time_spawned_ns t) (time_finished_ns t)
    (handle t) (stdin_pipe t) (stdout_pipe t) (stderr_pipe t) (current_state t)
    v (stdout_buffer t) (stdout_consumed_bytes t)
    (stderr_buffer t) (stderr_consumed_bytes t).

Definition set_stdout_buffer (t : exec_path_args) (v : std_string) : exec_path_args :=
  mk_exec_path_args (path t) (args t) (time_spawned_ns t) (time_finished_ns t)
    (handle t) (stdin_pipe t) (stdout_pipe t) (stderr_pipe t) (current_state t)
    (return_code t) v (stdout_consumed_bytes t)
    (stderr_buffer t) (stderr_consumed_bytes t).

Definition set_stdout_consumed_bytes (v : Z) (t : exec_path_args) : exec_path_args :=
  mk_exec_path_args (path t) (args t) (time_spawned_ns t) (time_finished_ns t)
    (handle t) (stdin_pipe t) (stdout_pipe t) (stderr_pipe t) (current_state t)
    (return_code t) (stdout_buffer t) v
    (stderr_buffer t) (stderr_consumed_bytes t).

Definition set_stderr_buffer (t : exec_path_args) (v : std_string) : exec_path_args :=
  mk_exec_path_args (path t) (args t) (time_spawned_ns t) (time_finished_ns t)
    (handle t) (stdin_pipe t) (stdout_pipe t) (stderr_pipe t) (current_state t)
    (return_code t) (stdout_buffer t) (stdout_consumed_bytes t)
    v (stderr_consumed_bytes t).

Definition set_stderr_consumed_bytes (v : Z) (t : exec_path_args) : exec_path_args :=
  mk_exec_path_args (path t) (args t) (time_spawned_ns t) (time_finished_ns t)
    (handle t) (stdin_pipe t) (stdout_pipe t) (stderr_pipe t) (current_state t)
    (return_code t) (stdout_buffer t) (stdout_consumed_bytes t)
    (stderr_buffer t) v.

(** [now_ns ()]: the product and the sum are taken in [long], the type of
    [tv_sec] and [tv_nsec]. *)
Definition now_ns : prog Z :=
  '(tv_sec, tv_nsec) <- call (sys_clock_gettime CLOCK_MONOTONIC) ;;
  Ret (wrap_long (wrap_long (tv_sec * 1000000000) + tv_nsec)).

(** [arr[i] = v] on an array held as a list (within its bounds). *)
Definition array_set {A : Type} (arr : list A) (i : nat) (v : A) : list A :=
  firstn i arr ++ v :: skipn (S i) arr.

(** [strdup (s.c_str ())]; allocation is taken to succeed. *)
Definition strdup (s : std_string) : char_ptr := ptr_to (c_str s).

(** The loop [for (i = 0; i < num_args; ++i)] of [build_args_cstr], from
    index [i] on, [rest] being [args[i]], [args[i + 1]], ... *)
Fixpoint fill_args (args_cstr_arr : list char_ptr) (rest : list std_string)
    (i : nat) : list char_ptr :=
  match rest with
  | [] => args_cstr_arr
  | a :: rest' => fill_args (array_set args_cstr_arr (i + 1) (strdup a)) rest' (S i)
  end.

(** [build_args_cstr (path, args)]: the array [new char *[num_args + 2]],
    whose cells start out indeterminate. *)
Definition build_args_cstr (path : std_string) (args : list std_string)
    : list char_ptr :=
  let num_args := length args in
  let args_cstr_arr := repeat indeterminate (num_args + 2) in
  let args_cstr_arr := array_set args_cstr_arr 0 (strdup path) in
  let args_cstr_arr := fill_args args_cstr_arr args 0 in
  array_set args_cstr_arr (num_args + 1) nullptr.

(** [my_cstr_arr_deleter::operator()] on the array itself: the pointers its
    loop hands to [free], in this order, up to the first null cell.  The
    loop reads a cell that was never assigned, or runs off the array, when
    there is no such cell before; that is undefined. *)
Fixpoint free_until_null (null_terminated_arr : list char_ptr)
    : option (list char_ptr) :=
  match null_terminated_arr with
  | [] => None
  | nullptr :: _ => Some []
  | indeterminate :: _ => None
  | ptr_to s :: rest => option_map (cons (ptr_to s)) (free_until_null rest)
  end.

(** [my_cstr_arr_deleter{}(null_terminated_arr)], the argument being a null
    pointer ([None]) or an array. *)
Definition my_cstr_arr_deleter (null_terminated_arr : option (list char_ptr))
    : option (list char_ptr) :=
  match null_terminated_arr with
  | None => Some []
  | Some arr => free_until_null arr
  end.

(** [std::string_view]: where it starts, as an offset into the buffer it was
    taken from, and its length (a [size_t]). *)
Record string_view : Type := mk_string_view {
  sv_data : Z;
  sv_size : Z
}.

(** The characters a view denotes, when it lies within its buffer; a view
    that reaches outside denotes nothing (reading it is undefined). *)
Definition sv_chars (buffer : std_string) (v : string_view) : option std_string :=
  if (0 <=? sv_data v) && (0 <=? sv_size v)
     && (sv_data v + sv_size v <=? size buffer)
  then Some (firstn (Z.to_nat (sv_size v)) (skipn (Z.to_nat (sv_data v)) buffer))
  else None.

(** [get_buffer (buffer, consumed_bytes, whole)]: the view returned, and
    [consumed_bytes] afterwards. *)
Definition get_buffer (buffer : std_string) (consumed_bytes : Z) (whole : bool)
    : string_view * Z :=
  if whole then
    (mk_string_view 0 (size buffer), size buffer)
  else
    (mk_string_view consumed_bytes (to_size_t (size buffer - consumed_bytes)),
     size buffer).

(** What [read (fd, buffer.data () + off, count)] leaves in the buffer when
    the OS stored [stored] there (never more than [count] characters). *)
Definition store_at (buffer : std_string) (off count : Z) (stored : std_string)
    : std_string :=
  let stored := firstn (Z.to_nat count) stored in
  firstn (Z.to_nat off) buffer ++ stored
    ++ skipn (Z.to_nat off + length stored) buffer.

(** The lambda [read_pipe] of [update_buffer], on the buffer it is given. *)
Definition read_pipe (fd : Z) : method std_string unit :=
  if fd =? invalid_fd then
    throw (runtime_error InvalidState
             (lit "cannot read from given pipe - it's closed or not initialized!"))
  else
    buffer <-- get_this ;;;
    let buf_prev_size := size buffer in
    '(_, avail) <-- os_call FILE_exec_path_args 420
                      (call (sys_ioctl fd FIONREAD 0)) fst ;;;
    nbytes <-- (if 0 <? avail then
                  modify (fun b => resize b (buf_prev_size + avail)) ;;;
                  (fun b =>
                     '(n, stored) <- call (sys_read fd avail) ;;
                     o <- syscall_helper FILE_exec_path_args 433 n ;;
                     Ret (o, store_at b buf_prev_size avail stored))
                else mret 0) ;;;
    if nbytes <? avail then
      throw (runtime_error ShortRead
               (lit "failed to read all available bytes from given pipe!"))
    else mret tt.

(** [time_diff_ms]: the difference is taken in [long long]; the quotient is
    kept exact, where the source rounds it to a [double]. *)
Definition time_diff_ms (high_ns low_ns : Z) : Z * Z :=
  (wrap_long (high_ns - low_ns), 1000000).

(** [process_handle_t.hxx] is not among the sources at hand.  What the code
    takes from it is a parameter of the development: [process_handle_t] is
    the type of a pid, and [invalid_process_handle] is the handle of a
    launcher that owns no process. *)
Class process_handle_t_hxx : Type := {
  invalid_process_handle : Z
}.

Section Launcher.

Context {hdr : process_handle_t_hxx}.

Definition manages_process (this : exec_path_args) : bool :=
  negb (handle this =? invalid_process_handle).

Definition is_finished (this : exec_path_args) : bool :=
  state_eqb (current_state this) finished.

Definition get_process_handle (this : exec_path_args) : Z := handle this.

(** [exec_path_args ()] and [exec_path_args (aPath, aArgs)]. *)
Definition exec_path_args_default : exec_path_args :=
  mk_exec_path_args [] [] 0 0 invalid_process_handle
    pipe_helper_default pipe_helper_default pipe_helper_default
    uninitialzied 0 [] 0 [] 0.

Definition exec_path_args_new (aPath : std_string) (aArgs : list std_string)
    : exec_path_args :=
  mk_exec_path_args aPath aArgs 0 0 invalid_process_handle
    pipe_helper_default pipe_helper_default pipe_helper_default
    ready 0 [] 0 [] 0.

(** [exec_in_child]: it never returns, whatever type is expected of it. *)
Definition exec_in_child {A : Type} (argv : list char_ptr)
    : method exec_path_args A :=
  fun this =>
    '(o, _) <-
      (on_member stdin_pipe set_stdin_pipe (noexcept close_in) ;;;
       this <-- get_this ;;;
       os_call FILE_exec_path_args 339
         (call (sys_dup2 (get_out (stdin_pipe this)) STDIN_FILENO)) id ;;;
       on_member stdout_pipe set_stdout_pipe (noexcept close_out) ;;;
       this <-- get_this ;;;
       os_call FILE_exec_path_args 342
         (call (sys_dup2 (get_in (stdout_pipe this)) STDOUT_FILENO)) id ;;;
       on_member stderr_pipe set_stderr_pipe (noexcept close_out) ;;;
       this <-- get_this ;;;
       os_call FILE_exec_path_args 345
         (call (sys_dup2 (get_in (stderr_pipe this)) STDERR_FILENO)) id ;;;
       os_call FILE_exec_path_args 348
         (call (sys_execv (nth 0 argv indeterminate) argv)) id) this ;;
    _ <- match o with
         | thrown e =>
             _ <- call (cerr_write
                          (lit "child process failed - caught exception: ")) ;;
             _ <- call (cerr_write (what e)) ;;
             call (cerr_write [LF])
         | returned _ => Ret tt
         end ;;
    Stop (exited EXIT_FAILURE).

Definition query_status (wait_for_finishing : bool)
    : method exec_path_args unit :=
  this <-- get_this ;;;
  if negb (manages_process this) then
    throw (runtime_error InvalidState
             (lit "can't query status - process handle is invalid!"))
  else if state_eqb (current_state this) running then
    let options := Z.lor WEXITED (if wait_for_finishing then 0 else WNOHANG) in
    '(_, status) <-- os_call FILE_exec_path_args 382
                       (call (sys_waitid P_PID (handle this) siginfo_zero
                                options)) fst ;;;
    if negb (si_pid status =? 0)
       && ((si_code status =? CLD_EXITED) || (si_code status =? CLD_KILLED)
           || (si_code status =? CLD_DUMPED))
    then
      (if negb (si_pid status =? handle this) then
         throw (runtime_error Fatal
                  (lit "waitid returned unexpected pid - different from the managed one!"))
       else mret tt) ;;;
      t <-- noexcept (fun this => t <- now_ns ;; Ret (t, this)) ;;;
      modify (set_time_finished_ns t) ;;;
      modify (set_current_state finished) ;;;
      modify (set_return_code (si_status status))
    else mret tt
  else if state_eqb (current_state this) finished then mret tt
  else
    throw (runtime_error InvalidState
             (lit "cannot wait for pid - process isn't running or finished!")).

(** [update_and_get_state]: the call in the [ready] case to the function
    itself is the one recursion of the source; [depth] bounds it. *)
Fixpoint update_and_get_state_rec (depth : nat)
    (timeout_until_it_finishes_ms : Z) {struct depth}
    : method exec_path_args states :=
  fun this0 =>
    let previous_state := current_state this0 in
    let return_states : method exec_path_args states :=
      this <-- get_this ;;;
      mret (mk_states previous_state (current_state this)) in
    (match current_state this0 with
     | ready =>
         on_member stdin_pipe set_stdin_pipe init ;;;
         on_member stdout_pipe set_stdout_pipe init ;;;
         on_member stderr_pipe set_stderr_pipe init ;;;
         this <-- get_this ;;;
         let argv := build_args_cstr (path this) (args this) in
         pid <-- os_call FILE_exec_path_args 156 (call sys_fork) id ;;;
         (if pid =? 0 then exec_in_child argv else mret tt) ;;;
         on_member stdin_pipe set_stdin_pipe (noexcept close_out) ;;;
         on_member stdout_pipe set_stdout_pipe (noexcept close_in) ;;;
         on_member stderr_pipe set_stderr_pipe (noexcept close_in) ;;;
         t <-- noexcept (fun this => t <- now_ns ;; Ret (t, this)) ;;;
         modify (set_time_spawned_ns t) ;;;
         modify (set_handle pid) ;;;
         modify (set_current_state running) ;;;
         if negb (timeout_until_it_finishes_ms =? 0) then
           match depth with
           | O => fun _ => Stop out_of_fuel
           | S depth' =>
               r <-- update_and_get_state_rec depth'
                       timeout_until_it_finishes_ms ;;;
               mret (mk_states previous_state (current r))
           end
         else return_states
     | running =>
         this <-- get_this ;;;
         (if negb (manages_process this) then
            throw (runtime_error InvalidState
                     (lit "cannot update state - process handle is invalid!"))
          else mret tt) ;;;
         pid_fd <-- os_call FILE_exec_path_args 187
                      (r <- call (sys_syscall SYS_pidfd_open (handle this) 0) ;;
                       Ret (static_cast_int r)) id ;;;
         poll_res <-- os_call FILE_exec_path_args 194
                        (call (sys_poll pid_fd POLLIN
                                 timeout_until_it_finishes_ms)) id ;;;
         (if poll_res =? 1 then query_status false else mret tt) ;;;
         this <-- get_this ;;;
         (if (timeout_until_it_finishes_ms <? 0)
             && negb (state_eqb (current_state this) finished)
          then
            throw (runtime_error Fatal
                     (lit "failed to wait for child process to finish without any timeout!"))
          else mret tt) ;;;
         return_states
     | finished =>
         this <-- get_this ;;;
         (if negb (manages_process this) then
            throw (runtime_error InvalidState
                     (lit "cannot update state - process handle is invalid!"))
          else mret tt) ;;;
         return_states
     | uninitialzied =>
         throw (runtime_error InvalidState
                  (lit "cannot update state - process wasn't initialized!"))
     end) this0.

Definition update_and_get_state (timeout_until_it_finishes_ms : Z)
    : method exec_path_args states :=
  update_and_get_state_rec 1 timeout_until_it_finishes_ms.

Definition finish_and_get_prev_state : method exec_path_args state :=
  r <-- update_and_get_state (-1) ;;; mret (previous r).

Definition finish : method exec_path_args unit :=
  finish_and_get_prev_state ;;; mret tt.

(** The loop [while (written < data_size)] of [send_to_stdin]; a [write]
    that keeps returning [0] keeps it going for ever, so the model bounds
    the number of rounds by [fuel]. *)
Fixpoint write_loop (fuel : nat) (data : std_string) (data_size written : Z)
    {struct fuel} : method exec_path_args unit :=
  if written <? data_size then
    match fuel with
    | O => fun _ => Stop out_of_fuel
    | S fuel' =>
        this <-- get_this ;;;
        now_written <-- os_call FILE_exec_path_args 247
                          (call (sys_write (get_in (stdin_pipe this))
                                   (skipn (Z.to_nat written) data)
                                   (data_size - written))) id ;;;
        write_loop fuel' data data_size (written + now_written)
    end
  else mret tt.

Definition send_to_stdin (fuel : nat) (data : std_string)
    : method exec_path_args unit :=
  this <-- get_this ;;;
  (if negb (manages_process this) then
     throw (runtime_error InvalidState
              (lit "cannot write to inferior stdin - process handle is invalid!"))
   else if get_in (stdin_pipe this) =? invalid_fd then
     throw (runtime_error InvalidState
              (lit "cannot write to inferior stdin - stdin pipe is closed or not initialized!"))
   else if negb (state_eqb (current_state this) running) then
     throw (runtime_error InvalidState
              (lit "cannot write to inferior stdin - process isn't running!"))
   else mret tt) ;;;
  let written := 0 in
  let data_size := size data in
  write_loop fuel data data_size written.

Definition close_stdin : method exec_path_args unit :=
  this <-- get_this ;;;
  (if negb (manages_process this) then
     throw (runtime_error InvalidState
              (lit "cannot close inferior stdin - process handle is invalid!"))
   else if negb (state_eqb (current_state this) running)
           || (get_in (stdin_pipe this) =? invalid_fd) then
     throw (runtime_error InvalidState
              (lit "cannot close inferior stdin - process isn't running or invalid fd!"))
   else mret tt) ;;;
  on_member stdin_pipe set_stdin_pipe (noexcept close_in).

Definition update_buffer (for_stdout : bool) : method exec_path_args unit :=
  this <-- get_this ;;;
  (if negb (manages_process this) then
     throw (runtime_error InvalidState
              (lit "cannot update any buffer - process handle is invalid!"))
   else mret tt) ;;;
  if for_stdout then
    on_member stdout_buffer set_stdout_buffer
      (read_pipe (get_out (stdout_pipe this)))
  else
    on_member stderr_buffer set_stderr_buffer
      (read_pipe (get_out (stderr_pipe this))).

Definition read_stdout (whole : bool) : method exec_path_args string_view :=
  update_buffer true ;;;
  this <-- get_this ;;;
  let '(ret, consumed_bytes) :=
    get_buffer (stdout_buffer this) (stdout_consumed_bytes this) whole in
  modify (set_stdout_consumed_bytes consumed_bytes) ;;;
  mret ret.

Definition read_stderr (whole : bool) : method exec_path_args string_view :=
  update_buffer false ;;;
  this <-- get_this ;;;
  let '(ret, consumed_bytes) :=
    get_buffer (stderr_buffer this) (stderr_consumed_bytes this) whole in
  modify (set_stderr_consumed_bytes consumed_bytes) ;;;
  mret ret.

(** A [std::string] or [std::vector] that was moved from is left empty (as
    libstdc++ and libc++ leave it). *)
Definition moved_from_string : std_string := [].
Definition moved_from_vector : list std_string := [].

Definition get_stdout : method exec_path_args std_string :=
  update_buffer true ;;;
  this <-- get_this ;;;
  modify (fun t => set_stdout_buffer t moved_from_string) ;;;
  mret (stdout_buffer this).

Definition get_stderr : method exec_path_args std_string :=
  update_buffer false ;;;
  this <-- get_this ;;;
  modify (fun t => set_stderr_buffer t moved_from_string) ;;;
  mret (stderr_buffer this).

Definition do_kill : method exec_path_args unit :=
  this <-- get_this ;;;
  if manages_process this && state_eqb (current_state this) running then
    os_call FILE_exec_path_args 302
      (call (sys_kill (handle this) SIGKILL)) id ;;;
    query_status true
  else mret tt.

Definition time_running_ms : method exec_path_args (Z * Z) :=
  this <-- get_this ;;;
  if negb (manages_process this) then
    throw (runtime_error InvalidState
             (lit "can't measure time - process handle is invalid!"))
  else if state_eqb (current_state this) running then
    now <-- noexcept (fun this => t <- now_ns ;; Ret (t, this)) ;;;
    mret (time_diff_ms now (time_spawned_ns this))
  else if state_eqb (current_state this) finished then
    mret (time_diff_ms (time_finished_ns this) (time_spawned_ns this))
  else
    throw (runtime_error InvalidState
             (lit "cannot get running time - process isn't running or finished!")).

Definition get_return_code : method exec_path_args Z :=
  this <-- get_this ;;;
  if negb (manages_process this) then
    throw (runtime_error InvalidState
             (lit "can't obtain return code - process handle is invalid!"))
  else if negb (state_eqb (current_state this) finished) then
    throw (runtime_error InvalidState
             (lit "can't obtain return code - process isn't finished!"))
  else mret (return_code this).

(** [swap (lhs, rhs)]: both objects afterwards. *)
Definition swap (lhs rhs : exec_path_args) : exec_path_args * exec_path_args :=
  let (lhs_stdin, rhs_stdin) := swap_pipe_helper (stdin_pipe lhs) (stdin_pipe rhs) in
  let (lhs_stdout, rhs_stdout) := swap_pipe_helper (stdout_pipe lhs) (stdout_pipe rhs) in
  let (lhs_stderr, rhs_stderr) := swap_pipe_helper (stderr_pipe lhs) (stderr_pipe rhs) in
  (mk_exec_path_args (path rhs) (args rhs) (time_spawned_ns rhs)
     (time_finished_ns rhs) (handle rhs) lhs_stdin lhs_stdout lhs_stderr
     (current_state rhs) (return_code rhs) (stdout_buffer rhs)
     (stdout_consumed_bytes rhs) (stderr_buffer rhs)
     (stderr_consumed_bytes rhs),
   mk_exec_path_args (path lhs) (args lhs) (time_spawned_ns lhs)
     (time_finished_ns lhs) (handle lhs) rhs_stdin rhs_stdout rhs_stderr
     (current_state lhs) (return_code lhs) (stdout_buffer lhs)
     (stdout_consumed_bytes lhs) (stderr_buffer lhs)
     (stderr_consumed_bytes lhs)).

(** [exec_path_args (exec_path_args &&rhs)]: the new object, and [rhs]
    afterwards. *)
Definition exec_path_args_move (rhs : exec_path_args)
    : exec_path_args * exec_path_args :=
  let (new_stdin, rhs_stdin) := pipe_helper_move (stdin_pipe rhs) in
  let (new_stdout, rhs_stdout) := pipe_helper_move (stdout_pipe rhs) in
  let (new_stderr, rhs_stderr) := pipe_helper_move (stderr_pipe rhs) in
  (mk_exec_path_args (path rhs) (args rhs) (time_spawned_ns rhs)
     (time_finished_ns rhs) (handle rhs) new_stdin new_stdout new_stderr
     (current_state rhs) (return_code rhs) (stdout_buffer rhs)
     (stdout_consumed_bytes rhs) (stderr_buffer rhs)
     (stderr_consumed_bytes rhs),
   mk_exec_path_args moved_from_string moved_from_vector
     (time_spawned_ns rhs) (time_finished_ns rhs) invalid_process_handle
     rhs_stdin rhs_stdout rhs_stderr uninitialzied (return_code rhs)
     moved_from_string (stdout_consumed_bytes rhs)
     moved_from_string (stderr_consumed_bytes rhs)).

(** [~exec_path_args ()], then the destructors of the three pipes, the
    last declared first.  An exception that leaves the [noexcept]
    destructor ends the process. *)
Definition exec_path_args_dtor (this : exec_path_args) : prog unit :=
  '(o, this) <- (if manages_process this then do_kill this
                 else Ret (returned tt, this)) ;;
  match o with
  | thrown _ => Stop terminated
  | returned _ =>
      _ <- pipe_helper_dtor (stderr_pipe this) ;;
      _ <- pipe_helper_dtor (stdout_pipe this) ;;
      pipe_helper_dtor (stdin_pipe this)
  end.

(** *** Objects at addresses

    [operator=] compares the addresses of its two operands, which may be
    one and the same object; so the objects live in a store. *)
Definition address : Type := nat.
Definition store : Type := address -> exec_path_args.

Definition store_set (m : store) (a : address) (v : exec_path_args) : store :=
  fun b => if Nat.eqb b a then v else m b.

(** [new (this_) exec_path_args{std::move (rhs)}], for a new object. *)
Definition move_construct (this_ rhs : address) (m : store) : store :=
  let (new, rhs') := exec_path_args_move (m rhs) in
  store_set (store_set m rhs rhs') this_ new.

(** [*this_ = std::move (rhs)]. *)
Definition move_assign (this_ rhs : address) (m : store) : prog store :=
  if negb (Nat.eqb this_ rhs) then
    let (tmp, rhs') := exec_path_args_move (m rhs) in
    let m := store_set m rhs rhs' in
    let (this', tmp) := swap (m this_) tmp in
    let m := store_set m this_ this' in
    _ <- exec_path_args_dtor tmp ;;
    Ret m
  else Ret m.

(** *** Pipes at addresses

    [pipe_helper::operator=] compares addresses as well. *)
Definition pipe_store : Type := address -> pipe_helper.

Definition pipe_store_set (m : pipe_store) (a : address) (v : pipe_helper)
    : pipe_store :=
  fun b => if Nat.eqb b a then v else m b.

(** [*this_ = std::move (rhs)] for pipes: [tmp] takes the ends of [rhs], is
    swapped with [*this_], and is destroyed at the end of the block. *)
Definition pipe_helper_move_assign (this_ rhs : address) (m : pipe_store)
    : prog pipe_store :=
  if negb (Nat.eqb this_ rhs) then
    let (tmp, rhs') := pipe_helper_move (m rhs) in
    let m := pipe_store_set m rhs rhs' in
    let (this', tmp) := swap_pipe_helper (m this_) tmp in
    let m := pipe_store_set m this_ this' in
    _ <- pipe_helper_dtor tmp ;;
    Ret m
  else Ret m.

End Launcher.

(** ** Traces

    [after p tr q]: the program [p] makes the calls of [tr], in this order
    and with nothing in between, the OS gives the answers of [tr], and [q]
    is what remains to be done. *)
Inductive event : Type :=
| Ev {R : Type} (c : syscall R) (r : R).

Inductive after {A : Type} : prog A -> list event -> prog A -> Prop :=
| after_nil (p : prog A) : after p [] p
| after_cons {R : Type} (c : syscall R) (k : R -> prog A) (r : R)
    (tr : list event) (q : prog A) :
    after (k r) tr q -> after (Sys c k) (Ev c r :: tr) q.

(** ** What a program ensures

    [ensures p P Q]: whatever the OS answers, [p] returns a value that
    satisfies [P], or the process stops for a reason that satisfies [Q]. *)
Fixpoint ensures {A : Type} (p : prog A) (P : A -> Prop) (Q : stop -> Prop)
    : Prop :=
  match p with
  | Ret a => P a
  | Sys c k => forall r, ensures (k r) P Q
  | Stop why => Q why
  end.

(** ** Calls that are refused

    [refused p this]: the call [p] on the object [this] throws an
    InvalidState error at once, before any call to the OS, and leaves the
    object as it was. *)
Definition refused {A : Type} (p : prog (outcome A * exec_path_args))
    (this : exec_path_args) : Prop :=
  exists text, p = Ret (thrown (runtime_error InvalidState text), this).

(** ** Launchers with the same output

    The buffers and cursors of [b] are those of [a]. *)
Definition same_output (a b : exec_path_args) : Prop :=
  stdout_buffer b = stdout_buffer a
  /\ stdout_consumed_bytes b = stdout_consumed_bytes a
  /\ stderr_buffer b = stderr_buffer a
  /\ stderr_consumed_bytes b = stderr_consumed_bytes a.

(** ** The order of the lifecycle

    The states in the order of [enum class state]; the rank of a state is
    its value there. *)
Definition state_rank (s : state) : nat :=
  match s with
  | uninitialzied => 0
  | ready => 1
  | running => 2
  | finished => 3
  end.

(** ** Launchers with the same process

    All of [b] but its buffers and cursors is as in [a]: the command, the
    times, the handle, the pipes, the state and the return code. *)
Definition same_process (a b : exec_path_args) : Prop :=
  path b = path a /\ args b = args a
  /\ time_spawned_ns b = time_spawned_ns a
  /\ time_finished_ns b = time_finished_ns a
  /\ handle b = handle a
  /\ stdin_pipe b = stdin_pipe a
  /\ stdout_pipe b = stdout_pipe a
  /\ stderr_pipe b = stderr_pipe a
  /\ current_state b = current_state a
  /\ return_code b = return_code a.

(** ** The end of a process

    The launcher after the reap of its process, with the status [info], at
    the time [tv] of the clock: the assignments at the end of
    [query_status]. *)
Definition reaped (info : siginfo_t) (tv : Z * Z) (this : exec_path_args)
    : exec_path_args :=
  set_return_code (si_status info)
    (set_current_state finished
       (set_time_finished_ns
          (wrap_long (wrap_long (fst tv * 1000000000) + snd tv)) this)).

(** The pipe ends a launcher holds once it has spawned: the write end of
    stdin and the read ends of stdout and stderr. *)
Definition parent_ends (this : exec_path_args) : Prop :=
  get_out (stdin_pipe this) = invalid_fd
  /\ get_in (stdin_pipe this) <> invalid_fd
  /\ get_out (stdout_pipe this) <> invalid_fd
  /\ get_in (stdout_pipe this) = invalid_fd
  /\ get_out (stderr_pipe this) <> invalid_fd
  /\ get_in (stderr_pipe this) = invalid_fd.

(** ** A caller that reads its output in increments

    [n] calls of [read_stdout (false)] in a row; the caller looks at each
    view as soon as it gets it, that is in the buffer as the call left
    it. *)
Fixpoint read_stdout_increments {hdr : process_handle_t_hxx} (n : nat)
    : method exec_path_args (list (option std_string)) :=
  match n with
  | O => mret []
  | S n' =>
      v <-- read_stdout false ;;;
      this <-- get_this ;;;
      rest <-- read_stdout_increments n' ;;;
      mret (sv_chars (stdout_buffer this) v :: rest)
  end.

(** [std::string::max_size ()]: no string is longer. *)
Definition string_max_size : Z := 2 ^ 63 - 1.

(** The cursor of each stream lies within its buffer. *)
Definition cursors_within_buffers (this : exec_path_args) : Prop :=
  0 <= stdout_consumed_bytes this <= size (stdout_buffer this)
  /\ 0 <= stderr_consumed_bytes this <= size (stderr_buffer this).

(** ** The sentence on incremental reads, word for word

    [n] reads in increments and a final read of the whole, from the launcher
    [this] on the operating system [h] in the state [w]: the concatenation
    of the increments is what the final read returns. *)
Definition increments_equal_whole {hdr : process_handle_t_hxx} {W : Type}
    (h : os W) (n : nat) (this : exec_path_args) (w : W) : Prop :=
  forall rs this1 w1 v this2 w2,
    run h (read_stdout_increments n this) w = (Done (returned rs, this1), w1) ->
    run h (read_stdout true this1) w1 = (Done (returned v, this2), w2) ->
    exists chunks,
      rs = map Some chunks
      /\ sv_chars (stdout_buffer this2) v = Some (concat chunks).

(** * Examples to run the code on *)

(** An operating system of which every call succeeds, and whose pipes
    deliver the chunks of a script, one for each time a reader asks how
    much there is to read.  Its children are killed, never exit. *)
Definition script_os : os (list std_string) :=
  fun R c =>
    match c in syscall R return list std_string -> R * list std_string with
    | sys_pipe _ => fun w => ((0, (3, 4)), w)
    | sys_fork => fun w => (1000, w)
    | sys_close _ => fun w => (0, w)
    | sys_dup2 _ newfd => fun w => (newfd, w)
    | sys_execv _ _ => fun w => (-1, w)
    | sys_syscall _ _ _ => fun w => (9, w)
    | sys_poll _ _ _ => fun w => (1, w)
    | sys_write _ _ count => fun w => (count, w)
    | sys_ioctl _ _ _ =>
        fun w =>
          match w with
          | [] => ((0, 0), [])
          | [] :: w' => ((0, 0), w')
          | chunk :: _ => ((0, size chunk), w)
          end
    | sys_read _ count =>
        fun w =>
          let chunk := firstn (Z.to_nat count) (hd [] w) in
          ((size chunk, chunk), tl w)
    | sys_kill _ _ => fun w => (0, w)
    | sys_waitid _ id _ _ => fun w => ((0, mk_siginfo id CLD_KILLED SIGKILL), w)
    | sys_clock_gettime _ => fun w => ((1, 0), w)
    | get_errno => fun w => (0, w)
    | libc_strerror _ => fun w => ([], w)
    | cerr_write _ => fun w => (tt, w)
    end.

(** An answer to every call, for the calls that an example does not care
    about: each succeeds, and nothing is ever there to read. *)
Definition quiet_answer (R : Type) (c : syscall R) : R :=
  match c in syscall R return R with
  | sys_pipe _ => (0, (3, 4))
  | sys_fork => 1000
  | sys_close _ => 0
  | sys_dup2 _ newfd => newfd
  | sys_execv _ _ => -1
  | sys_syscall _ _ _ => 9
  | sys_poll _ _ _ => 0
  | sys_write _ _ count => count
  | sys_ioctl _ _ _ => (0, 0)
  | sys_read _ _ => (0, [])
  | sys_kill _ _ => 0
  | sys_waitid _ _ status _ => (0, status)
  | sys_clock_gettime _ => (1, 0)
  | get_errno => 0
  | libc_strerror _ => []
  | cerr_write _ => tt
  end.

(** A pipe that takes what is written to it piece by piece: the [i]-th
    [write] takes at most one character more than the [i]-th limit (so at
    least one), and all that it is offered once the limits are used up.  The
    state is what the pipe has received so far, and the limits left. *)
Definition partial_write_os : os (std_string * list nat) :=
  fun R c =>
    match c in syscall R
          return std_string * list nat -> R * (std_string * list nat) with
    | sys_write _ buf count =>
        fun w =>
          let limit :=
            match snd w with
            | [] => Z.to_nat count
            | l :: _ => Nat.min (S l) (Z.to_nat count)
            end in
          let taken := firstn limit buf in
          (size taken, (fst w ++ taken, tl (snd w)))
    | c' => fun w => (quiet_answer _ c', w)
    end.

(** A header in which the sentinel is [-1]. *)
Definition sentinel_minus_one : process_handle_t_hxx :=
  {| invalid_process_handle := -1 |}.

(** A launcher as [update_and_get_state] leaves it after the spawn: child
    [1000] runs, and nothing was read so far. *)
Definition spawned : exec_path_args :=
  mk_exec_path_args (lit "/bin/cat") [lit "-"] 1000000000 0 1000
    (mk_pipe_helper invalid_fd 4) (mk_pipe_helper 5 invalid_fd)
    (mk_pipe_helper 7 invalid_fd) running 0 [] 0 [] 0.

(** The same launcher after one [read_stdout (false)] that drained "ab". *)
Definition spawned_and_read : exec_path_args :=
  set_stdout_consumed_bytes 2 (set_stdout_buffer spawned (lit "ab")).

(** Two objects: at [0] a launcher for a command that was not started, at
    every other address the launcher above. *)
Definition two_launchers : store :=
  fun a =>
    match a with
    | O => @exec_path_args_new sentinel_minus_one (lit "/bin/true") []
    | S _ => spawned
    end.

(** What two increments, "ab" and "c", leave of the launcher above. *)
Definition after_increments : exec_path_args :=
  set_stdout_consumed_bytes 3 (set_stdout_buffer spawned (lit "abc")).

(** What [get_stdout] leaves of [spawned_and_read]. *)
Definition after_get_stdout : exec_path_args :=
  set_stdout_buffer spawned_and_read [].

(** The launcher as the child of the fork finds it: the three pipes with
    both their ends, no process owned. *)
Definition in_child : exec_path_args :=
  mk_exec_path_args (lit "/bin/cat") [lit "-"] 0 0 (-1)
    (mk_pipe_helper 3 4) (mk_pipe_helper 5 6) (mk_pipe_helper 7 8)
    ready 0 [] 0 [] 0.

(** The launcher above once its child was reaped, two seconds after the
    start of the clock. *)
Definition spawned_and_reaped : exec_path_args :=
  reaped (mk_siginfo 1000 CLD_EXITED 7) (2, 0) spawned.

(** Two pipes: an open one at [0], another open one everywhere else. *)
Definition two_pipes : pipe_store :=
  fun a =>
    match a with
    | O => mk_pipe_helper 3 4
    | S _ => mk_pipe_helper 5 6
    end.

(** * Properties *)

(** ** Programs and runs *)

Lemma run_bind {W A B : Type} (h : os W) (p : prog A) (f : A -> prog B) (w : W) :
  run h (bind p f) w =
  match run h p w with
  | (Done a, w') => run h (f a) w'
  | (Stopped why, w') => (Stopped why, w')
  end.
Proof.
  revert w; induction p as [a | R c k IH | why]; intros w; simpl.
  - reflexivity.
  - destruct (h R c w) as [r w']. apply IH.
  - reflexivity.
Qed.

Lemma static_cast_int_id (z : Z) :
  INT_MIN <= z <= INT_MAX -> static_cast_int z = z.
Proof.
  unfold INT_MIN, INT_MAX, static_cast_int; intros Hz.
  rewrite Z.mod_small; lia.
Qed.

(** A result that is not negative, and fits an [int], passes the checker. *)
Lemma syscall_helper_ok (file : std_string) (line r : Z) :
  0 <= r <= INT_MAX -> syscall_helper file line r = Ret (returned r).
Proof.
  intros Hr. unfold syscall_helper, check_syscall_ret_val.
  rewrite static_cast_int_id by (unfold INT_MIN, INT_MAX in *; lia).
  destruct (r <? 0) eqn:E; [apply Z.ltb_lt in E; lia | reflexivity].
Qed.

Lemma run_mbind {W S A B : Type} (h : os W) (m : method S A)
    (f : A -> method S B) (this : S) (w : W) :
  run h ((x <-- m ;;; f x) this) w =
  match run h (m this) w with
  | (Done (returned a, this'), w') => run h (f a this') w'
  | (Done (thrown e, this'), w') => (Done (thrown e, this'), w')
  | (Stopped why, w') => (Stopped why, w')
  end.
Proof.
  unfold mbind. rewrite run_bind.
  destruct (run h (m this) w) as [[[[a | e] this'] | why] w']; reflexivity.
Qed.

Lemma run_on_member {W S T A : Type} (h : os W) (get : S -> T)
    (set : S -> T -> S) (m : method T A) (this : S) (w : W) :
  run h (on_member get set m this) w =
  match run h (m (get this)) w with
  | (Done (o, t), w') => (Done (o, set this t), w')
  | (Stopped why, w') => (Stopped why, w')
  end.
Proof.
  unfold on_member. rewrite run_bind.
  destruct (run h (m (get this)) w) as [[[o t] | why] w']; reflexivity.
Qed.

Lemma run_noexcept {W S A : Type} (h : os W) (f : S -> prog (A * S))
    (this : S) (w : W) :
  run h (noexcept f this) w =
  match run h (f this) w with
  | (Done (a, this'), w') => (Done (returned a, this'), w')
  | (Stopped why, w') => (Stopped why, w')
  end.
Proof.
  unfold noexcept. rewrite run_bind.
  destruct (run h (f this) w) as [[[a t] | why] w']; reflexivity.
Qed.

(** The checker never stops the process: it returns or throws. *)
Lemma run_syscall_helper {W : Type} (h : os W) (file : std_string)
    (line r : Z) (w : W) :
  (0 <= static_cast_int r /\ run h (syscall_helper file line r) w = (Done (returned r), w))
  \/ (static_cast_int r < 0
      /\ exists text w',
           run h (syscall_helper file line r) w
           = (Done (thrown (runtime_error SyscallError text)), w')).
Proof.
  unfold syscall_helper, check_syscall_ret_val.
  destruct (static_cast_int r <? 0) eqn:E.
  - right. apply Z.ltb_lt in E. split; [exact E |]. simpl.
    destruct (h Z get_errno w) as [e w1].
    destruct (h std_string (libc_strerror e) w1) as [c w2].
    eexists _, _. reflexivity.
  - left. apply Z.ltb_ge in E. split; [exact E | reflexivity].
Qed.

Lemma run_os_call {W S R : Type} (h : os W) (file : std_string) (line : Z)
    (c : syscall R) (ret_of : R -> Z) (this : S) (w : W) :
  let (r, w1) := h R c w in
  (0 <= static_cast_int (ret_of r)
   /\ run h (os_call file line (call c) ret_of this) w
      = (Done (returned r, this), w1))
  \/ (static_cast_int (ret_of r) < 0
      /\ exists text w',
           run h (os_call file line (call c) ret_of this) w
           = (Done (thrown (runtime_error SyscallError text), this), w')).
Proof.
  destruct (h R c w) as [r w1] eqn:E.
  unfold os_call, lift, SYSCALL_HELPER. simpl. rewrite E.
  rewrite !run_bind.
  destruct (run_syscall_helper h file line (ret_of r) w1)
    as [[H0 ->] | [H0 [text [w' ->]]]]; simpl.
  - left. split; [exact H0 | reflexivity].
  - right. split; [exact H0 |]. eexists _, _. reflexivity.
Qed.

Lemma ensures_run {W A : Type} (h : os W) (p : prog A) (P : A -> Prop)
    (Q : stop -> Prop) (w : W) :
  ensures p P Q ->
  match fst (run h p w) with
  | Done a => P a
  | Stopped why => Q why
  end.
Proof.
  revert w; induction p as [a | R c k IH | why]; intros w Hp; simpl in *.
  - exact Hp.
  - destruct (h R c w) as [r w']. apply IH, Hp.
  - exact Hp.
Qed.

Lemma ensures_bind {A B : Type} (p : prog A) (f : A -> prog B)
    (P : B -> Prop) (Q : stop -> Prop) :
  ensures p (fun a => ensures (f a) P Q) Q -> ensures (bind p f) P Q.
Proof.
  induction p as [a | R c k IH | why]; simpl; intros Hp.
  - exact Hp.
  - intros r. apply IH, Hp.
  - exact Hp.
Qed.

Lemma ensures_weaken {A : Type} (p : prog A) (P P' : A -> Prop)
    (Q Q' : stop -> Prop) :
  ensures p P Q -> (forall a, P a -> P' a) -> (forall y, Q y -> Q' y) ->
  ensures p P' Q'.
Proof.
  induction p as [a | R c k IH | why]; simpl; intros Hp HP HQ.
  - apply HP, Hp.
  - intros r. apply (IH r); auto.
  - apply HQ, Hp.
Qed.

Lemma ensures_mbind {S A B : Type} (m : method S A) (f : A -> method S B)
    (this : S) (P : outcome B * S -> Prop) (Q : stop -> Prop) :
  ensures (m this)
    (fun r => match r with
              | (returned a, this') => ensures (f a this') P Q
              | (thrown e, this') => P (thrown e, this')
              end) Q ->
  ensures ((x <-- m ;;; f x) this) P Q.
Proof.
  intros Hm. unfold mbind. apply ensures_bind.
  eapply ensures_weaken; [exact Hm | | auto].
  intros [[a | e] this'] Ha; exact Ha.
Qed.

(** The checker returns its argument or throws a SyscallError. *)
Lemma ensures_syscall_helper (file : std_string) (line r : Z) :
  ensures (syscall_helper file line r)
    (fun o => match o with
              | returned v => v = r /\ 0 <= static_cast_int r
              | thrown e => kind e = SyscallError
              end)
    (fun _ => False).
Proof.
  unfold syscall_helper, check_syscall_ret_val.
  destruct (static_cast_int r <? 0) eqn:E; simpl.
  - intros e c. reflexivity.
  - apply Z.ltb_ge in E. split; [reflexivity | exact E].
Qed.

Lemma ensures_os_call {S R : Type} (file : std_string) (line : Z)
    (c : syscall R) (ret_of : R -> Z) (this : S) :
  ensures (os_call file line (call c) ret_of this)
    (fun r => snd r = this
              /\ match fst r with
                 | returned v => 0 <= static_cast_int (ret_of v)
                 | thrown e => kind e = SyscallError
                 end)
    (fun _ => False).
Proof.
  unfold os_call, lift, SYSCALL_HELPER. simpl. intros r.
  apply ensures_bind. apply ensures_bind.
  eapply ensures_weaken; [apply ensures_syscall_helper | | auto].
  intros [v | e]; simpl; intros H; split; tauto.
Qed.

Lemma ensures_close_fd (fd : Z) :
  ensures (close_fd fd) (fun fd' => fd' = invalid_fd) (fun _ => False).
Proof.
  unfold close_fd. destruct (fd =? invalid_fd) eqn:E; simpl.
  - apply Z.eqb_eq in E. exact E.
  - intros r. destruct (r =? -1); simpl; [| reflexivity].
    intros e. destruct (e =? EBADF); simpl; [intros []; reflexivity |].
    destruct (e =? EINTR); simpl; [intros []; reflexivity |].
    destruct (e =? EIO); simpl; [intros []; reflexivity |].
    intros [] [] []. reflexivity.
Qed.

Lemma ensures_close_out (S : Type) (get : S -> pipe_helper)
    (set : S -> pipe_helper -> S) (this : S) :
  ensures (on_member get set (noexcept close_out) this)
    (fun r => r = (returned tt, set this (mk_pipe_helper invalid_fd (fds1 (get this)))))
    (fun _ => False).
Proof.
  unfold on_member, noexcept, close_out.
  repeat apply ensures_bind.
  eapply ensures_weaken; [apply ensures_close_fd | | auto].
  simpl. intros fd ->. reflexivity.
Qed.

Lemma ensures_close_in (S : Type) (get : S -> pipe_helper)
    (set : S -> pipe_helper -> S) (this : S) :
  ensures (on_member get set (noexcept close_in) this)
    (fun r => r = (returned tt, set this (mk_pipe_helper (fds0 (get this)) invalid_fd)))
    (fun _ => False).
Proof.
  unfold on_member, noexcept, close_in.
  repeat apply ensures_bind.
  eapply ensures_weaken; [apply ensures_close_fd | | auto].
  simpl. intros fd ->. reflexivity.
Qed.

(** ** build_args_cstr *)

Lemma array_set_app {A : Type} (pre tl : list A) (x v : A) (i : nat) :
  length pre = i -> array_set (pre ++ x :: tl) i v = pre ++ v :: tl.
Proof.
  intros <-. unfold array_set.
  rewrite firstn_app, firstn_all, Nat.sub_diag, firstn_0, app_nil_r.
  f_equal. f_equal.
  rewrite skipn_app, skipn_all2 by lia.
  replace (S (length pre) - length pre)%nat with 1%nat by lia. reflexivity.
Qed.

Lemma fill_args_spec (rest : list std_string) :
  forall (pre : list char_ptr) (i k : nat),
    length pre = (i + 1)%nat ->
    fill_args (pre ++ repeat indeterminate (length rest + k)) rest i
    = pre ++ map strdup rest ++ repeat indeterminate k.
Proof.
  induction rest as [| a rest IH]; intros pre i k Hpre; simpl.
  - reflexivity.
  - rewrite array_set_app by assumption.
    change (pre ++ strdup a :: repeat indeterminate (length rest + k))
      with (pre ++ [strdup a] ++ repeat indeterminate (length rest + k)).
    rewrite app_assoc, IH by (rewrite length_app; simpl; lia).
    rewrite <- app_assoc. reflexivity.
Qed.


Lemma build_args_cstr_eq (path : std_string) (args : list std_string) :
  build_args_cstr path args = strdup path :: map strdup args ++ [nullptr].
Proof.
  unfold build_args_cstr.
  replace (length args + 2)%nat with (S (length args + 1)) by lia.
  cbn [repeat].
  unfold array_set at 2. cbn [firstn skipn app].
  change (strdup path :: repeat indeterminate (length args + 1))
    with ([strdup path] ++ repeat indeterminate (length args + 1)).
  rewrite (fill_args_spec args [strdup path] 0 1 eq_refl).
  cbn [repeat].
  rewrite app_assoc.
  rewrite array_set_app by (rewrite length_app, length_map; simpl; lia).
  rewrite <- app_assoc. reflexivity.
Qed.


(** ** syscall_helper *)

(** C7. A result [r] of an OS call (an [int]) goes through the checker
    unchanged, and without any further call, when it is not negative.  When
    it is negative the checker first reads [errno], then asks for its
    description, and throws a SyscallError whose text is made of the file,
    the line, [r], the [errno] value and that description. *)
Theorem syscall_helper_checks (file : std_string) (line r : Z) :
  INT_MIN <= r <= INT_MAX ->
  (0 <= r -> syscall_helper file line r = Ret (returned r))
  /\ (r < 0 ->
      syscall_helper file line r
      = Sys get_errno (fun errno_val =>
          Sys (libc_strerror errno_val) (fun cause =>
            Ret (thrown (runtime_error SyscallError
                           (file ++ lit ":" ++ to_string line
                              ++ lit ": syscall failed - return code "
                              ++ to_string r ++ lit ", errno "
                              ++ to_string errno_val ++ lit " ~ "
                              ++ [dquote] ++ cause ++ [dquote])))))).
Proof.
  intros Hr. unfold syscall_helper, check_syscall_ret_val.
  rewrite (static_cast_int_id r Hr). split; intros Hs.
  - destruct (r <? 0) eqn:E; [apply Z.ltb_lt in E; lia | reflexivity].
  - destruct (r <? 0) eqn:E; [reflexivity | apply Z.ltb_ge in E; lia].
Qed.

(** Outside the range of [int] the check is made on the truncated value: a
    [ssize_t] of [2^31] is taken for a failure. *)
Remark syscall_helper_truncates (file : std_string) (line : Z) :
  exists k, syscall_helper file line (2 ^ 31) = Sys get_errno k.
Proof. eexists. reflexivity. Qed.

(** ** pipe_helper *)

Lemma close_fd_invalid : close_fd invalid_fd = Ret invalid_fd.
Proof. reflexivity. Qed.

Lemma run_close_fd {W : Type} (h : os W) (fd : Z) (w : W) :
  exists w', run h (close_fd fd) w = (Done invalid_fd, w').
Proof.
  unfold close_fd. destruct (fd =? invalid_fd) eqn:E; simpl.
  - apply Z.eqb_eq in E. subst fd. eexists; reflexivity.
  - destruct (h Z (sys_close fd) w) as [r w1].
    destruct (r =? -1); simpl; [| eexists; reflexivity].
    destruct (h Z get_errno w1) as [e w2].
    destruct (e =? EBADF); simpl.
    { destruct (h unit (cerr_write _) w2) as [[] w3]. eexists; reflexivity. }
    destruct (e =? EINTR); simpl.
    { destruct (h unit (cerr_write _) w2) as [[] w3]. eexists; reflexivity. }
    destruct (e =? EIO); simpl.
    { destruct (h unit (cerr_write _) w2) as [[] w3]. eexists; reflexivity. }
    destruct (h unit (cerr_write _) w2) as [[] w3].
    destruct (h unit (cerr_write _) w3) as [[] w4].
    destruct (h unit (cerr_write _) w4) as [[] w5].
    eexists; reflexivity.
Qed.

Lemma run_close_out {W : Type} (h : os W) (p : pipe_helper) (w : W) :
  exists w',
    run h (close_out p) w = (Done (tt, mk_pipe_helper invalid_fd (fds1 p)), w').
Proof.
  unfold close_out. rewrite run_bind.
  destruct (run_close_fd h (fds0 p) w) as [w' ->]. eexists; reflexivity.
Qed.

Lemma run_close_in {W : Type} (h : os W) (p : pipe_helper) (w : W) :
  exists w',
    run h (close_in p) w = (Done (tt, mk_pipe_helper (fds0 p) invalid_fd), w').
Proof.
  unfold close_in. rewrite run_bind.
  destruct (run_close_fd h (fds1 p) w) as [w' ->]. eexists; reflexivity.
Qed.

(** C8. Whatever the OS answers, [close_out] returns (it cannot throw) with
    the read end set to [invalid_fd] and the write end as it was, and a
    second [close_out] makes no call at all and changes nothing; the same
    holds of [close_in] with the two ends exchanged. *)
Theorem close_ends_idempotent {W : Type} (h : os W) (p : pipe_helper) (w : W) :
  (exists p' w',
      run h (close_out p) w = (Done (tt, p'), w')
      /\ get_out p' = invalid_fd /\ get_in p' = get_in p
      /\ close_out p' = Ret (tt, p'))
  /\ (exists p' w',
         run h (close_in p) w = (Done (tt, p'), w')
         /\ get_in p' = invalid_fd /\ get_out p' = get_out p
         /\ close_in p' = Ret (tt, p')).
Proof.
  split.
  - destruct (run_close_out h p w) as [w' E].
    exists (mk_pipe_helper invalid_fd (fds1 p)), w'. repeat split; assumption.
  - destruct (run_close_in h p w) as [w' E].
    exists (mk_pipe_helper (fds0 p) invalid_fd), w'. repeat split; assumption.
Qed.

Section LauncherProperties.

Context {hdr : process_handle_t_hxx}.

(** ** send_to_stdin *)

(** C9. On a running launcher with a valid handle and an open stdin pipe,
    [send_to_stdin] with no data returns without a single call to the OS
    (the loop makes no round), and the launcher is what it was. *)
Theorem send_to_stdin_empty (fuel : nat) (this : exec_path_args) :
  manages_process this = true ->
  get_in (stdin_pipe this) <> invalid_fd ->
  current_state this = running ->
  send_to_stdin fuel [] this = Ret (returned tt, this).
Proof.
  intros Hm Hfd Hst. unfold send_to_stdin, mbind, get_this; simpl.
  rewrite Hm, Hst; simpl.
  apply Z.eqb_neq in Hfd. rewrite Hfd; simpl.
  destruct fuel; reflexivity.
Qed.

(** ** do_kill *)

(** C5. [do_kill] acts exactly when the launcher owns a process and is
    running.  Then its first call is [kill (handle, SIGKILL)], and when that
    succeeds it waits with [waitid (P_PID, handle, ..., WEXITED)], without
    [WNOHANG]; once the OS reports the end of the child, the launcher is
    finished, with the reported status as its return code.  In every other
    case (no process owned, or a state other than running) it returns at
    once, without any call and without any change: it does not throw. *)
Theorem do_kill_acts_when_running (this : exec_path_args) :
  (manages_process this && state_eqb (current_state this) running = false ->
   do_kill this = Ret (returned tt, this))
  /\ (manages_process this = true -> current_state this = running ->
      (exists k, do_kill this = Sys (sys_kill (handle this) SIGKILL) k)
      /\ forall (r ret : Z) (info : siginfo_t) (tv : Z * Z),
           0 <= r <= INT_MAX -> 0 <= ret <= INT_MAX ->
           si_pid info = handle this -> handle this <> 0 ->
           si_code info = CLD_EXITED \/ si_code info = CLD_KILLED
             \/ si_code info = CLD_DUMPED ->
           exists this',
             after (do_kill this)
               [Ev (sys_kill (handle this) SIGKILL) r;
                Ev (sys_waitid P_PID (handle this) siginfo_zero WEXITED)
                  (ret, info);
                Ev (sys_clock_gettime CLOCK_MONOTONIC) tv]
               (Ret (returned tt, this'))
             /\ current_state this' = finished
             /\ return_code this' = si_status info
             /\ handle this' = handle this).
Proof.
  split.
  - intros Hno. unfold do_kill, mbind, get_this; simpl. rewrite Hno. reflexivity.
  - intros Hm Hst. split.
    + unfold do_kill, mbind, get_this; simpl. rewrite Hm, Hst; simpl.
      eexists. reflexivity.
    + intros r ret info [sec nsec] Hr Hret Hpid Hnz Hcode.
      eexists. split; [| split; [| split]].
      * unfold do_kill, mbind, get_this; simpl. rewrite Hm, Hst; simpl.
        apply after_cons. unfold id. rewrite (syscall_helper_ok _ _ r Hr). simpl.
        unfold query_status, mbind, get_this; simpl. rewrite Hm, Hst; simpl.
        apply after_cons. simpl. rewrite (syscall_helper_ok _ _ ret Hret). simpl.
        rewrite Hpid.
        replace (handle this =? 0) with false by (symmetry; apply Z.eqb_neq; exact Hnz).
        replace ((si_code info =? CLD_EXITED) || (si_code info =? CLD_KILLED)
                 || (si_code info =? CLD_DUMPED)) with true
          by (destruct Hcode as [-> | [-> | ->]]; reflexivity).
        rewrite Z.eqb_refl. simpl.
        apply after_cons. simpl. apply after_nil.
      * reflexivity.
      * reflexivity.
      * reflexivity.
Qed.

(** ** update_and_get_state *)

(** A step of a sequence: the first member function is described by a
    lemma, and the rest goes on from what it leaves. *)
Ltac mstep lem :=
  apply ensures_mbind;
  eapply ensures_weaken; [apply lem | | first [intros ? [] | auto]].

Ltac mget := apply ensures_mbind; unfold get_this at 1; cbn [ensures].

(** The child never comes back from [exec_in_child]: its process exits. *)
Lemma ensures_exec_in_child {A : Type} (argv : list char_ptr)
    (this : exec_path_args) :
  ensures (exec_in_child (A := A) argv this) (fun _ => False)
    (fun why => why = exited EXIT_FAILURE).
Proof.
  unfold exec_in_child. apply ensures_bind.
  assert (Hend : forall r : outcome Z * exec_path_args,
             ensures
               (let '(o, _) := r in
                _ <- match o with
                     | returned _ => Ret tt
                     | thrown e =>
                         _ <- call (cerr_write
                                      (lit "child process failed - caught exception: ")) ;;
                         _ <- call (cerr_write (what e)) ;;
                         call (cerr_write [LF])
                     end ;;
                Stop (exited EXIT_FAILURE))
               (fun _ : outcome A * exec_path_args => False)
               (fun why => why = exited EXIT_FAILURE)).
  { intros [[v | e] t]; simpl; [reflexivity | intros [] [] []; reflexivity]. }
  mstep ensures_close_in.
  intros ? ->. mget.
  mstep (@ensures_os_call exec_path_args Z).
  intros [[v | e] t] [_ _]; [| apply (Hend (thrown e, t))].
  mstep ensures_close_out.
  intros ? ->. mget.
  mstep (@ensures_os_call exec_path_args Z).
  intros [[v2 | e2] t2] [_ _]; [| apply (Hend (thrown e2, t2))].
  mstep ensures_close_out.
  intros ? ->. mget.
  mstep (@ensures_os_call exec_path_args Z).
  intros [[v4 | e4] t4] [_ _]; [| apply (Hend (thrown e4, t4))].
  eapply ensures_weaken;
    [apply (@ensures_os_call exec_path_args Z) | | intros ? []].
  intros r _. apply (Hend r).
Qed.

Lemma ensures_init (S : Type) (get : S -> pipe_helper)
    (set : S -> pipe_helper -> S) (this : S) :
  ensures (on_member get set init this)
    (fun r => match fst r with
              | returned _ => True
              | thrown e => kind e = SyscallError
              end)
    (fun _ => False).
Proof.
  unfold on_member, init. apply ensures_bind. simpl. intros [r [a b]].
  apply ensures_bind.
  eapply ensures_weaken; [apply ensures_syscall_helper | | auto].
  intros [v | e]; simpl; tauto.
Qed.

Lemma ensures_now_ns (S : Type) (this : S) :
  ensures (noexcept (fun this => t <- now_ns ;; Ret (t, this)) this)
    (fun r => exists t, r = (returned t, this)) (fun _ => False).
Proof. simpl. intros [sec nsec]. eexists; reflexivity. Qed.

(** What a call with a zero timeout on a ready launcher can come to,
    whatever the OS does. *)
Lemma update_and_get_state_zero_ensures (this : exec_path_args) :
  current_state this = ready ->
  ensures (update_and_get_state 0 this)
    (fun r => match r with
              | (returned st, this') =>
                  st = mk_states ready running /\ current_state this' = running
              | (thrown e, _) => kind e = SyscallError
              end)
    (fun why => why = exited EXIT_FAILURE).
Proof.
  intros Hst. unfold update_and_get_state, update_and_get_state_rec.
  rewrite Hst.
  mstep ensures_init. intros [[[] | e] t]; cbn [fst]; [intros _ | exact (fun H => H)].
  mstep ensures_init. intros [[[] | e] t0]; cbn [fst]; [intros _ | exact (fun H => H)].
  mstep ensures_init. intros [[[] | e] t1]; cbn [fst]; [intros _ | exact (fun H => H)].
  mget.
  mstep (@ensures_os_call exec_path_args Z).
  intros [[pid | e] t2]; cbn [fst snd]; [intros _ | exact (fun H => proj2 H)].
  apply ensures_mbind. destruct (pid =? 0).
  { eapply ensures_weaken; [apply ensures_exec_in_child | intros ? [] | auto]. }
  unfold mret at 1. cbn [ensures].
  mstep ensures_close_out. intros ? ->.
  mstep ensures_close_in. intros ? ->.
  mstep ensures_close_in. intros ? ->.
  mstep ensures_now_ns. intros ? [tm ->].
  simpl. split; reflexivity.
Qed.

Lemma run_init_ok {W : Type} (h : os W) (p : pipe_helper) (w w1 : W)
    (r a b : Z) :
  h _ (sys_pipe (fds0 p, fds1 p)) w = ((r, (a, b)), w1) ->
  0 <= r <= INT_MAX ->
  run h (init p) w = (Done (returned tt, mk_pipe_helper a b), w1).
Proof.
  intros E Hr. unfold init. simpl. rewrite E. simpl.
  rewrite run_bind, (syscall_helper_ok _ _ r Hr). reflexivity.
Qed.

Lemma run_os_call_ok {W S R : Type} (h : os W) (file : std_string) (line : Z)
    (c : syscall R) (ret_of : R -> Z) (this : S) (w w1 : W) (r : R) :
  h R c w = (r, w1) -> 0 <= ret_of r <= INT_MAX ->
  run h (os_call file line (call c) ret_of this) w
  = (Done (returned r, this), w1).
Proof.
  intros E Hr. unfold os_call, lift, SYSCALL_HELPER. simpl. rewrite E.
  rewrite !run_bind, (syscall_helper_ok _ _ _ Hr). reflexivity.
Qed.

(** C10. One call [update_and_get_state (0)] on a ready launcher: whatever
    the OS does, the call returns [{ready, running}] and leaves the launcher
    running, unless it throws the SyscallError of a failed [pipe] or [fork],
    or is the child, which never returns; it never gets to the handling of
    the running state, and so never reports [finished].  And when the three
    pipes and the fork succeed, in the parent it does return, with the pid
    as handle. *)
Theorem update_and_get_state_zero_timeout {W : Type} (h : os W)
    (this : exec_path_args) (w : W) :
  current_state this = ready ->
  ensures (update_and_get_state 0 this)
    (fun r => match r with
              | (returned st, this') =>
                  st = mk_states ready running /\ current_state this' = running
              | (thrown e, _) => kind e = SyscallError
              end)
    (fun why => why = exited EXIT_FAILURE)
  /\ forall (r1 a1 b1 r2 a2 b2 r3 a3 b3 pid : Z) (w1 w2 w3 w4 : W),
       h _ (sys_pipe (fds0 (stdin_pipe this), fds1 (stdin_pipe this))) w
         = ((r1, (a1, b1)), w1) -> 0 <= r1 <= INT_MAX ->
       h _ (sys_pipe (fds0 (stdout_pipe this), fds1 (stdout_pipe this))) w1
         = ((r2, (a2, b2)), w2) -> 0 <= r2 <= INT_MAX ->
       h _ (sys_pipe (fds0 (stderr_pipe this), fds1 (stderr_pipe this))) w2
         = ((r3, (a3, b3)), w3) -> 0 <= r3 <= INT_MAX ->
       h _ sys_fork w3 = (pid, w4) -> 0 < pid <= INT_MAX ->
       exists this' w',
         run h (update_and_get_state 0 this) w
           = (Done (returned (mk_states ready running), this'), w')
         /\ current_state this' = running
         /\ handle this' = pid.
Proof.
  intros Hst. split; [exact (update_and_get_state_zero_ensures this Hst) |].
  intros r1 a1 b1 r2 a2 b2 r3 a3 b3 pid w1 w2 w3 w4 E1 H1 E2 H2 E3 H3 E4 H4.
  unfold update_and_get_state, update_and_get_state_rec. rewrite Hst.
  rewrite run_mbind, run_on_member, (run_init_ok h _ _ _ _ _ _ E1 H1).
  rewrite run_mbind, run_on_member. cbn [stdout_pipe set_stdin_pipe].
  rewrite (run_init_ok h _ _ _ _ _ _ E2 H2).
  rewrite run_mbind, run_on_member. cbn [stderr_pipe set_stdout_pipe set_stdin_pipe].
  rewrite (run_init_ok h _ _ _ _ _ _ E3 H3).
  rewrite run_mbind. unfold get_this at 1. cbn [run].
  rewrite run_mbind.
  rewrite (run_os_call_ok h _ _ _ _ _ _ _ _ E4) by (unfold id; lia).
  replace (pid =? 0) with false by (symmetry; apply Z.eqb_neq; lia).
  rewrite run_mbind. unfold mret at 1. cbn [run].
  rewrite run_mbind, run_on_member, run_noexcept.
  match goal with |- context [run h (close_out ?p) ?w0] =>
    destruct (run_close_out h p w0) as [w5 ->] end.
  rewrite run_mbind, run_on_member, run_noexcept.
  match goal with |- context [run h (close_in ?p) ?w0] =>
    destruct (run_close_in h p w0) as [w6 ->] end.
  rewrite run_mbind, run_on_member, run_noexcept.
  match goal with |- context [run h (close_in ?p) ?w0] =>
    destruct (run_close_in h p w0) as [w7 ->] end.
  rewrite run_mbind, run_noexcept. unfold now_ns. simpl.
  destruct (h _ (sys_clock_gettime CLOCK_MONOTONIC) w7) as [[sec nsec] w8].
  simpl. eexists _, _. split; [reflexivity | split; reflexivity].
Qed.

(** ** Moves *)

Lemma ensures_throw {S A : Type} (e : exception) (this : S)
    (P : outcome A * S -> Prop) (Q : stop -> Prop) :
  P (thrown e, this) -> ensures (throw (A := A) e this) P Q.
Proof. intros H; exact H. Qed.

Lemma ensures_mret {S A : Type} (a : A) (this : S)
    (P : outcome A * S -> Prop) (Q : stop -> Prop) :
  P (returned a, this) -> ensures (mret a this) P Q.
Proof. intros H; exact H. Qed.

(** [query_status] and [do_kill] return or throw: they never stop the
    process. *)
Lemma query_status_never_stops (b : bool) (this : exec_path_args) :
  ensures (query_status b this) (fun _ => True) (fun _ => False).
Proof.
  unfold query_status. mget.
  destruct (negb (manages_process this)); [exact I |].
  destruct (state_eqb (current_state this) running).
  - mstep (@ensures_os_call exec_path_args (Z * siginfo_t)).
    intros [[[ret status] | e] t] _; [| exact I].
    match goal with |- context [if ?c then _ else _] => destruct c end;
      [| exact I].
    apply ensures_mbind.
    match goal with |- context [if ?c then _ else _] => destruct c end;
      [exact I |].
    unfold mret at 1. cbn [ensures].
    mstep ensures_now_ns. intros ? [tm ->]. exact I.
  - destruct (state_eqb (current_state this) finished); exact I.
Qed.

Lemma do_kill_never_stops (this : exec_path_args) :
  ensures (do_kill this) (fun _ => True) (fun _ => False).
Proof.
  unfold do_kill. mget.
  destruct (manages_process this && state_eqb (current_state this) running);
    [| exact I].
  mstep (@ensures_os_call exec_path_args Z).
  intros [[r | e] t] _; [| exact I].
  apply query_status_never_stops.
Qed.

Lemma pipe_helper_dtor_never_stops (p : pipe_helper) :
  ensures (pipe_helper_dtor p) (fun _ => True) (fun _ => False).
Proof.
  unfold pipe_helper_dtor, close_out, close_in.
  repeat apply ensures_bind.
  eapply ensures_weaken; [apply ensures_close_fd | | auto].
  intros fd _. cbn [ensures]. repeat apply ensures_bind.
  eapply ensures_weaken; [apply ensures_close_fd | | auto].
  intros fd' _. exact I.
Qed.

(** The destructor completes, unless [do_kill] throws out of it. *)
Lemma dtor_completes_or_terminates (this : exec_path_args) :
  ensures (exec_path_args_dtor this) (fun _ => True)
    (fun why => why = terminated).
Proof.
  unfold exec_path_args_dtor. apply ensures_bind.
  assert (Hrest : forall r : outcome unit * exec_path_args,
             ensures
               (let '(o, this0) := r in
                match o with
                | returned _ =>
                    _ <- pipe_helper_dtor (stderr_pipe this0) ;;
                    _ <- pipe_helper_dtor (stdout_pipe this0) ;;
                    pipe_helper_dtor (stdin_pipe this0)
                | thrown _ => Stop terminated
                end) (fun _ => True) (fun why => why = terminated)).
  { intros [[[] | e] t]; [| reflexivity].
    apply ensures_bind.
    eapply ensures_weaken;
      [apply pipe_helper_dtor_never_stops | | intros ? []].
    intros _ _. apply ensures_bind.
    eapply ensures_weaken;
      [apply pipe_helper_dtor_never_stops | | intros ? []].
    intros _ _.
    eapply ensures_weaken;
      [apply pipe_helper_dtor_never_stops | auto | intros ? []]. }
  destruct (manages_process this).
  - eapply ensures_weaken; [apply do_kill_never_stops | | intros ? []].
    intros r _. apply Hrest.
  - apply (Hrest (returned tt, this)).
Qed.

(** Without a running process of its own to kill, it completes. *)
Lemma dtor_completes (this : exec_path_args) :
  manages_process this && state_eqb (current_state this) running = false ->
  ensures (exec_path_args_dtor this) (fun _ => True) (fun _ => False).
Proof.
  intros Hno. unfold exec_path_args_dtor.
  assert (Hk : do_kill this = Ret (returned tt, this)).
  { unfold do_kill, mbind, get_this; simpl. rewrite Hno. reflexivity. }
  rewrite Hk. destruct (manages_process this); cbn [bind].
  all: apply ensures_bind;
    (eapply ensures_weaken;
      [apply pipe_helper_dtor_never_stops | | intros ? []]);
    intros _ _; apply ensures_bind;
    (eapply ensures_weaken;
      [apply pipe_helper_dtor_never_stops | | intros ? []]);
    intros _ _; apply pipe_helper_dtor_never_stops.
Qed.

Lemma exec_path_args_move_fst (rhs : exec_path_args) :
  fst (exec_path_args_move rhs) = rhs.
Proof. destruct rhs as [? ? ? ? ? [? ?] [? ?] [? ?] ? ? ? ? ? ?]. reflexivity. Qed.

Lemma swap_eq (lhs rhs : exec_path_args) : swap lhs rhs = (rhs, lhs).
Proof.
  destruct lhs as [? ? ? ? ? [? ?] [? ?] [? ?] ? ? ? ? ? ?].
  destruct rhs as [? ? ? ? ? [? ?] [? ?] [? ?] ? ? ? ? ? ?]. reflexivity.
Qed.

(** Assigning an object to itself does nothing at all. *)
Lemma move_assign_self (a : address) (m : store) : move_assign a a m = Ret m.
Proof. unfold move_assign. rewrite Nat.eqb_refl. reflexivity. Qed.

(** C4. A move, by the move constructor or by move assignment between two
    different objects, hands the whole state of the source to the
    destination, the handle and the six pipe ends included, and leaves a
    source that owns no process, holds no pipe end (its handle is the
    invalid one, and both ends of its three pipes are [invalid_fd]) and is
    uninitialized: every operation that depends on the state is refused on
    it with InvalidState, [do_kill] on it does nothing and succeeds, and
    its destructor makes no call to the OS.
    (The assignment first destroys what the destination held; should the
    kill of its running process throw there, the process terminates.) *)
Theorem move_leaves_source_uninitialized (m : store) (this_ rhs : address) :
  this_ <> rhs ->
  let src := snd (exec_path_args_move (m rhs)) in
  let transferred (m' : store) :=
    m' this_ = m rhs /\ m' rhs = src
    /\ handle (m' this_) = handle (m rhs)
    /\ stdin_pipe (m' this_) = stdin_pipe (m rhs)
    /\ stdout_pipe (m' this_) = stdout_pipe (m rhs)
    /\ stderr_pipe (m' this_) = stderr_pipe (m rhs)
    /\ handle (m' rhs) = invalid_process_handle
    /\ stdin_pipe (m' rhs) = mk_pipe_helper invalid_fd invalid_fd
    /\ stdout_pipe (m' rhs) = mk_pipe_helper invalid_fd invalid_fd
    /\ stderr_pipe (m' rhs) = mk_pipe_helper invalid_fd invalid_fd in
  transferred (move_construct this_ rhs m)
  /\ ensures (move_assign this_ rhs m) transferred
       (fun why => why = terminated)
  /\ (manages_process (m this_)
        && state_eqb (current_state (m this_)) running = false ->
      ensures (move_assign this_ rhs m) transferred (fun _ => False))
  /\ manages_process src = false
  /\ current_state src = uninitialzied
  /\ handle src = invalid_process_handle
  /\ stdin_pipe src = mk_pipe_helper invalid_fd invalid_fd
  /\ stdout_pipe src = mk_pipe_helper invalid_fd invalid_fd
  /\ stderr_pipe src = mk_pipe_helper invalid_fd invalid_fd
  /\ exec_path_args_dtor src = Ret tt
  /\ (forall timeout, refused (update_and_get_state timeout src) src)
  /\ refused (finish_and_get_prev_state src) src
  /\ refused (finish src) src
  /\ (forall fuel data, refused (send_to_stdin fuel data src) src)
  /\ refused (close_stdin src) src
  /\ (forall whole, refused (read_stdout whole src) src)
  /\ (forall whole, refused (read_stderr whole src) src)
  /\ refused (get_stdout src) src
  /\ refused (get_stderr src) src
  /\ refused (time_running_ms src) src
  /\ refused (get_return_code src) src
  /\ do_kill src = Ret (returned tt, src).
Proof.
  intros Hne src transferred.
  assert (Hm2 : forall v : exec_path_args,
             transferred (store_set (store_set m rhs src) this_ v) <-> v = m rhs).
  { intros v. unfold transferred, store_set.
    rewrite Nat.eqb_refl.
    replace (Nat.eqb rhs this_) with false
      by (symmetry; apply Nat.eqb_neq; congruence).
    rewrite Nat.eqb_refl. split.
    - intros [H _]. exact H.
    - intros ->. repeat split. }
  assert (Hassign :
            move_assign this_ rhs m
            = (_ <- exec_path_args_dtor (m this_) ;;
               Ret (store_set (store_set m rhs src) this_ (m rhs)))).
  { unfold move_assign.
    replace (Nat.eqb this_ rhs) with false by (symmetry; apply Nat.eqb_neq; exact Hne).
    cbn [negb]. subst src.
    pose proof (exec_path_args_move_fst (m rhs)) as Hf.
    destruct (exec_path_args_move (m rhs)) as [tmp rhs']. cbn [fst snd] in *.
    rewrite swap_eq.
    assert (Hx : store_set m rhs rhs' this_ = m this_)
      by (unfold store_set; rewrite (proj2 (Nat.eqb_neq this_ rhs) Hne);
          reflexivity).
    rewrite Hx. subst tmp. reflexivity. }
  assert (Hsrc : manages_process src = false).
  { subst src. unfold manages_process.
    destruct (exec_path_args_move (m rhs)) eqn:E. unfold exec_path_args_move in E.
    injection E as _ <-. simpl. rewrite Z.eqb_refl. reflexivity. }
  assert (Hst : current_state src = uninitialzied) by reflexivity.
  assert (Hdtor : exec_path_args_dtor src = Ret tt).
  { unfold exec_path_args_dtor. rewrite Hsrc. cbn [bind].
    subst src. unfold exec_path_args_move, pipe_helper_move.
    cbn [snd stderr_pipe stdout_pipe stdin_pipe].
    unfold pipe_helper_dtor, close_out, close_in. cbn [fds0 fds1].
    rewrite !close_fd_invalid. reflexivity. }
  split; [| split; [| split; [| split; [exact Hsrc | split; [exact Hst |]]]]].
  4: split; [reflexivity |]; split; [reflexivity |];
     split; [reflexivity |]; split; [reflexivity |];
     split; [exact Hdtor |].
  - unfold move_construct. fold src.
    pose proof (exec_path_args_move_fst (m rhs)) as Hf. fold src.
    destruct (exec_path_args_move (m rhs)) as [new rhs'] eqn:E.
    cbn [fst snd] in *. subst src. cbn [snd]. apply Hm2. exact Hf.
  - rewrite Hassign. apply ensures_bind.
    eapply ensures_weaken; [apply dtor_completes_or_terminates | | auto].
    intros _ _. apply Hm2. reflexivity.
  - intros Hno. rewrite Hassign. apply ensures_bind.
    eapply ensures_weaken; [apply (dtor_completes _ Hno) | | auto].
    intros _ _. apply Hm2. reflexivity.
  - unfold refused, update_and_get_state, update_and_get_state_rec,
      finish, finish_and_get_prev_state, update_and_get_state,
      update_and_get_state_rec, send_to_stdin, close_stdin, read_stdout,
      read_stderr, get_stdout, get_stderr, update_buffer, time_running_ms,
      get_return_code, do_kill, mbind, get_this, throw.
    rewrite Hst. cbn [bind]. rewrite Hsrc. cbn [negb andb bind].
    repeat split; intros; try (eexists; reflexivity).
Qed.

(** ** Reading the output *)

Lemma size_app (a b : std_string) : size (a ++ b) = size a + size b.
Proof. unfold size. rewrite length_app. lia. Qed.

Lemma size_nonneg (a : std_string) : 0 <= size a.
Proof. unfold size. lia. Qed.

(** What a read leaves: the buffer as it was, then [avail] characters. *)
Lemma store_at_resize (buffer stored : std_string) (avail : Z) :
  0 < avail ->
  exists chunk,
    store_at (resize buffer (size buffer + avail)) (size buffer) avail stored
    = buffer ++ chunk
    /\ size chunk = avail.
Proof.
  intros Ha. unfold store_at, resize, size.
  set (st := firstn (Z.to_nat avail) stored).
  assert (Hst : (length st <= Z.to_nat avail)%nat)
    by (subst st; rewrite length_firstn; lia).
  replace (Z.to_nat (Z.of_nat (length buffer) + avail))
    with (length buffer + Z.to_nat avail)%nat by lia.
  rewrite (firstn_all2 buffer) by lia.
  replace (length buffer + Z.to_nat avail - length buffer)%nat
    with (Z.to_nat avail) by lia.
  rewrite Nat2Z.id, firstn_app, firstn_all, Nat.sub_diag, firstn_0, app_nil_r.
  rewrite skipn_app, skipn_all2 by lia. cbn [app].
  replace (length buffer + length st - length buffer)%nat with (length st) by lia.
  exists (st ++ skipn (length st) (repeat NUL (Z.to_nat avail))). split.
  - reflexivity.
  - rewrite length_app, length_skipn, repeat_length. lia.
Qed.

(** Whether it returns or throws, [read_pipe] only appends to the buffer. *)
Lemma read_pipe_appends (fd : Z) (buffer : std_string) :
  ensures (read_pipe fd buffer)
    (fun r => exists chunk, snd r = buffer ++ chunk)
    (fun _ => False).
Proof.
  unfold read_pipe. destruct (fd =? invalid_fd).
  { exists []. symmetry. apply app_nil_r. }
  mget.
  mstep (@ensures_os_call std_string (Z * Z)).
  intros [[[ret avail] | e] b]; cbn [fst snd]; intros [-> _];
    [| exists []; symmetry; apply app_nil_r].
  apply ensures_mbind. destruct (0 <? avail) eqn:Hav.
  - apply Z.ltb_lt in Hav. apply ensures_mbind. unfold modify at 1.
    cbn [ensures]. intros [n stored]. cbn [bind]. apply ensures_bind.
    destruct (store_at_resize buffer stored avail Hav) as [chunk [Hc _]].
    eapply ensures_weaken; [apply ensures_syscall_helper | | auto].
    intros [v | e] _; cbn [ensures].
    + destruct (v <? avail); cbn; exists chunk; exact Hc.
    + exists chunk; exact Hc.
  - unfold mret at 1. cbn [ensures].
    destruct (0 <? avail); cbn; exists []; symmetry; apply app_nil_r.
Qed.

Lemma set_stdout_buffer_same (this : exec_path_args) :
  set_stdout_buffer this (stdout_buffer this ++ []) = this.
Proof. destruct this. unfold set_stdout_buffer. cbn. rewrite app_nil_r. reflexivity. Qed.

Lemma set_stderr_buffer_same (this : exec_path_args) :
  set_stderr_buffer this (stderr_buffer this ++ []) = this.
Proof. destruct this. unfold set_stderr_buffer. cbn. rewrite app_nil_r. reflexivity. Qed.

Lemma update_buffer_appends (for_stdout : bool) (this : exec_path_args) :
  ensures (update_buffer for_stdout this)
    (fun r => exists chunk,
         snd r = if for_stdout
                 then set_stdout_buffer this (stdout_buffer this ++ chunk)
                 else set_stderr_buffer this (stderr_buffer this ++ chunk))
    (fun _ => False).
Proof.
  unfold update_buffer. mget. apply ensures_mbind.
  destruct (negb (manages_process this)).
  { exists []. cbn [snd].
    destruct for_stdout;
      [rewrite set_stdout_buffer_same | rewrite set_stderr_buffer_same];
      reflexivity. }
  unfold mret at 1. cbn [ensures]. destruct for_stdout.
  - unfold on_member. apply ensures_bind.
    eapply ensures_weaken; [apply read_pipe_appends | | auto].
    intros [o b] [chunk Hc]. cbn [snd] in Hc. subst b. exists chunk. reflexivity.
  - unfold on_member. apply ensures_bind.
    eapply ensures_weaken; [apply read_pipe_appends | | auto].
    intros [o b] [chunk Hc]. cbn [snd] in Hc. subst b. exists chunk. reflexivity.
Qed.
Lemma run_mbind_returned {W S A B : Type} (h : os W) (m : method S A)
    (f : A -> method S B) (this this2 : S) (w w2 : W) (b : B) :
  run h ((x <-- m ;;; f x) this) w = (Done (returned b, this2), w2) ->
  exists a this1 w1,
    run h (m this) w = (Done (returned a, this1), w1)
    /\ run h (f a this1) w1 = (Done (returned b, this2), w2).
Proof.
  rewrite run_mbind.
  destruct (run h (m this) w) as [[[[a | e] this1] | why] w1];
    try discriminate.
  intros H. exists a, this1, w1. split; [reflexivity | exact H].
Qed.

(** A read that returns has appended what it drained to the buffer, set the
    cursor to the end, and taken its view from the buffer so extended and
    the cursor as it was. *)
Lemma run_read_stdout {W : Type} (h : os W) (whole : bool)
    (this this' : exec_path_args) (w w' : W) (v : string_view) :
  run h (read_stdout whole this) w = (Done (returned v, this'), w') ->
  exists chunk,
    this' = set_stdout_consumed_bytes (size (stdout_buffer this ++ chunk))
              (set_stdout_buffer this (stdout_buffer this ++ chunk))
    /\ v = fst (get_buffer (stdout_buffer this ++ chunk)
                  (stdout_consumed_bytes this) whole).
Proof.
  unfold read_stdout. intros H.
  apply run_mbind_returned in H. destruct H as [[] [this1 [w1 [E1 E2]]]].
  pose proof (ensures_run h _ _ _ w (update_buffer_appends true this)) as Hu.
  rewrite E1 in Hu. cbn [fst snd] in Hu. destruct Hu as [chunk ->].
  exists chunk.
  unfold mbind, get_this, modify, mret in E2. cbn [bind run] in E2.
  cbn [stdout_buffer stdout_consumed_bytes set_stdout_buffer] in E2.
  destruct (get_buffer (stdout_buffer this ++ chunk)
              (stdout_consumed_bytes this) whole) as [ret consumed] eqn:G.
  cbn [bind run] in E2. injection E2 as <- <- _.
  unfold get_buffer in G. destruct whole; injection G as <- <-;
    split; reflexivity.
Qed.

(** The view of an incremental read, looked at in the buffer as the read
    left it, shows what came after the cursor. *)
Lemma sv_chars_increment (buffer chunk : std_string) :
  size (buffer ++ chunk) <= string_max_size ->
  sv_chars (buffer ++ chunk)
    (fst (get_buffer (buffer ++ chunk) (size buffer) false))
  = Some chunk.
Proof.
  intros Hmax. unfold get_buffer, sv_chars, to_size_t. cbn [fst sv_data sv_size].
  pose proof (size_nonneg buffer) as Hb. pose proof (size_nonneg chunk) as Hc.
  rewrite size_app in *. unfold string_max_size in Hmax.
  replace (size buffer + size chunk - size buffer) with (size chunk) by lia.
  rewrite Z.mod_small by lia.
  replace (0 <=? size buffer) with true by (symmetry; apply Z.leb_le; lia).
  replace (0 <=? size chunk) with true by (symmetry; apply Z.leb_le; lia).
  replace (size buffer + size chunk <=? size buffer + size chunk) with true
    by (symmetry; apply Z.leb_le; lia).
  cbn [andb]. unfold size. rewrite !Nat2Z.id.
  rewrite skipn_app, skipn_all, Nat.sub_diag. cbn [app skipn].
  rewrite firstn_all. reflexivity.
Qed.

(** The view of a whole read shows the whole buffer. *)
Lemma sv_chars_whole (buffer : std_string) (consumed_bytes : Z) :
  sv_chars buffer (fst (get_buffer buffer consumed_bytes true)) = Some buffer.
Proof.
  unfold get_buffer, sv_chars. cbn [fst sv_data sv_size].
  pose proof (size_nonneg buffer) as Hb.
  replace (0 <=? size buffer) with true by (symmetry; apply Z.leb_le; lia).
  replace (0 + size buffer <=? size buffer) with true
    by (symmetry; apply Z.leb_le; lia).
  cbn [andb Z.leb Z.compare]. unfold size. rewrite Nat2Z.id.
  cbn [Z.to_nat skipn]. rewrite firstn_all. reflexivity.
Qed.

(** What [n] incremental reads in a row return, and leave. *)
Lemma run_read_stdout_increments {W : Type} (h : os W) (n : nat) :
  forall (this this1 : exec_path_args) (w w1 : W)
         (rs : list (option std_string)),
    stdout_consumed_bytes this = size (stdout_buffer this) ->
    size (stdout_buffer this1) <= string_max_size ->
    run h (read_stdout_increments n this) w = (Done (returned rs, this1), w1) ->
    exists chunks,
      rs = map Some chunks
      /\ stdout_buffer this1 = stdout_buffer this ++ concat chunks
      /\ stdout_consumed_bytes this1 = size (stdout_buffer this1).
Proof.
  induction n as [| n IH]; intros this this1 w w1 rs Hcur Hmax H.
  - cbn in H. injection H as <- <- _. exists []. cbn.
    rewrite app_nil_r. auto.
  - cbn [read_stdout_increments] in H.
    apply run_mbind_returned in H. destruct H as [v [ta [wa [E1 H]]]].
    apply run_read_stdout in E1. destruct E1 as [chunk [-> ->]].
    apply run_mbind_returned in H. destruct H as [tb [tb' [wb [E2 H]]]].
    cbn in E2. injection E2 as <- <- <-.
    apply run_mbind_returned in H. destruct H as [rest [tc [wc [E3 H]]]].
    cbn in H. injection H as <- <- <-.
    apply IH in E3; [| reflexivity | exact Hmax].
    destruct E3 as [chunks [-> [Hbuf Hc]]].
    cbn [stdout_buffer set_stdout_consumed_bytes set_stdout_buffer] in *.
    exists (chunk :: chunks). split; [| split].
    + cbn [map]. f_equal. rewrite Hcur. apply sv_chars_increment.
      rewrite Hbuf in Hmax. rewrite size_app in Hmax.
      pose proof (size_nonneg (concat chunks)). lia.
    + rewrite Hbuf. cbn [concat]. rewrite <- app_assoc. reflexivity.
    + exact Hc.
Qed.

(** C3, as the code has it.  Take a launcher whose stdout cursor is at the
    end of its buffer (all that was captured was handed out; so it is after
    the spawn, when both are empty), any number of [read_stdout (false)]
    calls, and a final [read_stdout (true)], all of which return.  Then the
    final result is what the buffer held before, followed by the
    concatenation of the incremental results, followed by what the final
    call itself drained from the pipe: nothing is lost or repeated across
    the increments. *)
Theorem increments_then_whole {W : Type} (h : os W) (n : nat)
    (this this1 this2 : exec_path_args) (w w1 w2 : W)
    (rs : list (option std_string)) (v : string_view) :
  stdout_consumed_bytes this = size (stdout_buffer this) ->
  size (stdout_buffer this2) <= string_max_size ->
  run h (read_stdout_increments n this) w = (Done (returned rs, this1), w1) ->
  run h (read_stdout true this1) w1 = (Done (returned v, this2), w2) ->
  exists (chunks : list std_string) (last : std_string),
    rs = map Some chunks
    /\ stdout_buffer this2 = stdout_buffer this1 ++ last
    /\ sv_chars (stdout_buffer this2) v
       = Some (stdout_buffer this ++ concat chunks ++ last).
Proof.
  intros Hcur Hmax Hinc Hfin.
  apply run_read_stdout in Hfin. destruct Hfin as [last [-> ->]].
  cbn [stdout_buffer set_stdout_consumed_bytes set_stdout_buffer] in *.
  apply run_read_stdout_increments in Hinc; [| exact Hcur |].
  - destruct Hinc as [chunks [-> [Hbuf _]]]. exists chunks, last.
    split; [reflexivity | split; [reflexivity |]].
    rewrite sv_chars_whole, Hbuf, <- app_assoc. reflexivity.
  - rewrite size_app in Hmax. pose proof (size_nonneg last). lia.
Qed.

(** ** What leaves the buffers and cursors alone, and what does not *)

(** In general: when [get_stdout] returns, it has handed out the buffer with
    what it drained, the buffer is empty, and the cursor is where it was. *)
Lemma run_get_stdout {W : Type} (h : os W) (this this' : exec_path_args)
    (w w' : W) (v : std_string) :
  run h (get_stdout this) w = (Done (returned v, this'), w') ->
  exists chunk,
    v = stdout_buffer this ++ chunk
    /\ this' = set_stdout_buffer this []
    /\ stdout_consumed_bytes this' = stdout_consumed_bytes this.
Proof.
  unfold get_stdout. intros H.
  apply run_mbind_returned in H. destruct H as [[] [this1 [w1 [E1 E2]]]].
  pose proof (ensures_run h _ _ _ w (update_buffer_appends true this)) as Hu.
  rewrite E1 in Hu. cbn [fst snd] in Hu. destruct Hu as [chunk ->].
  exists chunk. cbn in E2. injection E2 as <- <- _.
  repeat split; reflexivity.
Qed.

(** A read, whether it returns or throws, leaves both cursors within their
    buffers when it finds them so. *)
Lemma read_stdout_keeps_cursors (whole : bool) (this : exec_path_args) :
  cursors_within_buffers this ->
  ensures (read_stdout whole this)
    (fun r => cursors_within_buffers (snd r)) (fun _ => False).
Proof.
  intros [[Ho1 Ho2] He]. unfold read_stdout.
  mstep update_buffer_appends.
  intros [[[] | e] t]; cbn [snd]; intros [chunk ->].
  - mget. unfold get_buffer.
    pose proof (size_nonneg (stdout_buffer this ++ chunk)) as Hs.
    destruct whole; cbn; unfold cursors_within_buffers; cbn;
      (split; [lia | exact He]).
  - split; [| exact He]. cbn. rewrite size_app.
    pose proof (size_nonneg chunk). lia.
Qed.

Lemma read_stderr_keeps_cursors (whole : bool) (this : exec_path_args) :
  cursors_within_buffers this ->
  ensures (read_stderr whole this)
    (fun r => cursors_within_buffers (snd r)) (fun _ => False).
Proof.
  intros [Ho [He1 He2]]. unfold read_stderr.
  mstep update_buffer_appends.
  intros [[[] | e] t]; cbn [snd]; intros [chunk ->].
  - mget. unfold get_buffer.
    pose proof (size_nonneg (stderr_buffer this ++ chunk)) as Hs.
    destruct whole; cbn; unfold cursors_within_buffers; cbn;
      (split; [exact Ho | lia]).
  - split; [exact Ho |]. cbn. rewrite size_app.
    pose proof (size_nonneg chunk). lia.
Qed.

Lemma same_output_refl (a : exec_path_args) : same_output a a.
Proof. repeat split. Qed.

Lemma same_output_trans (a b c : exec_path_args) :
  same_output a b -> same_output b c -> same_output a c.
Proof.
  unfold same_output. intros [H1 [H2 [H3 H4]]] [G1 [G2 [G3 G4]]].
  repeat split; congruence.
Qed.

Lemma ensures_init_member (S : Type) (get : S -> pipe_helper)
    (set : S -> pipe_helper -> S) (this : S) :
  ensures (on_member get set init this)
    (fun r => exists p, snd r = set this p) (fun _ => False).
Proof.
  unfold on_member, init. apply ensures_bind. simpl. intros [r [a b]].
  apply ensures_bind.
  eapply ensures_weaken; [apply ensures_syscall_helper | | auto].
  intros o _. exists (mk_pipe_helper a b). reflexivity.
Qed.

Lemma ensures_os_call_expr {S R : Type} (file : std_string) (line : Z)
    (fn : prog R) (ret_of : R -> Z) (this : S) :
  ensures fn (fun _ => True) (fun _ => False) ->
  ensures (os_call file line fn ret_of this)
    (fun r => snd r = this
              /\ match fst r with
                 | returned v => 0 <= static_cast_int (ret_of v)
                 | thrown e => kind e = SyscallError
                 end)
    (fun _ => False).
Proof.
  intros Hfn. unfold os_call, lift, SYSCALL_HELPER.
  apply ensures_bind. apply ensures_bind.
  eapply ensures_weaken; [exact Hfn | | auto].
  intros r _. apply ensures_bind.
  eapply ensures_weaken; [apply ensures_syscall_helper | | auto].
  intros [v | e]; simpl; intros H; split; tauto.
Qed.

Lemma query_status_same_output (b : bool) (this : exec_path_args) :
  ensures (query_status b this) (fun r => same_output this (snd r))
    (fun _ => False).
Proof.
  unfold query_status. mget.
  destruct (negb (manages_process this)); [apply same_output_refl |].
  destruct (state_eqb (current_state this) running).
  - mstep (@ensures_os_call exec_path_args (Z * siginfo_t)).
    intros [[[ret status] | e] t]; cbn [fst snd]; intros [-> _];
      [| apply same_output_refl].
    match goal with |- context [if ?c then _ else _] => destruct c end;
      [| apply same_output_refl].
    apply ensures_mbind.
    match goal with |- context [if ?c then _ else _] => destruct c end;
      [apply same_output_refl |].
    unfold mret at 1. cbn [ensures].
    mstep ensures_now_ns. intros ? [tm ->]. repeat split.
  - destruct (state_eqb (current_state this) finished);
      apply same_output_refl.
Qed.

(** From a state other than [ready] the function does not call itself:
    any [depth] will do. *)
Lemma update_and_get_state_rec_not_ready (depth : nat) (timeout : Z)
    (this : exec_path_args) :
  current_state this <> ready ->
  ensures (update_and_get_state_rec depth timeout this)
    (fun r => same_output this (snd r)) (fun _ => False).
Proof.
  intros Hst. destruct depth; cbn [update_and_get_state_rec];
    (destruct (current_state this) eqn:E;
     [apply same_output_refl | congruence | | ]).
  all: try (mget; apply ensures_mbind;
            destruct (negb (manages_process this));
            [apply same_output_refl |];
            unfold mret at 1; cbn [ensures]).
  all: try (mget; apply same_output_refl).
  all: apply ensures_mbind;
    (eapply ensures_weaken;
     [apply (@ensures_os_call_expr exec_path_args Z); intros r; exact I
     | | intros ? []]);
    (intros [[pid_fd | e] t]; cbn [fst snd]; intros [-> _];
     [| apply same_output_refl]);
    mstep (@ensures_os_call exec_path_args Z);
    (intros [[poll_res | e] t]; cbn [fst snd]; intros [-> _];
     [| apply same_output_refl]);
    apply ensures_mbind;
    (eapply ensures_weaken with
       (P := fun r : outcome unit * exec_path_args => same_output this (snd r));
     [destruct (poll_res =? 1);
      [apply query_status_same_output | apply same_output_refl]
     | | auto]);
    intros [[[] | e] t] Ht; cbn [snd] in Ht; [| exact Ht];
    mget; apply ensures_mbind;
    match goal with |- context [if ?c then _ else _] => destruct c end;
    [exact Ht |]; unfold mret at 1; cbn [ensures]; mget; exact Ht.
Qed.

(** [update_and_get_state] never touches the buffers or the cursors, and the
    one nested call it may make is all the recursion there is: it never
    gets to the bound of the model.  It stops the process in the child
    only. *)
Lemma update_and_get_state_same_output (timeout : Z) (this : exec_path_args) :
  ensures (update_and_get_state timeout this)
    (fun r => same_output this (snd r))
    (fun why => why = exited EXIT_FAILURE).
Proof.
  destruct (current_state this) eqn:Hst.
  1, 3, 4:
    (eapply ensures_weaken;
     [apply update_and_get_state_rec_not_ready; congruence | auto
     | intros ? []]).
  unfold update_and_get_state. cbn [update_and_get_state_rec]. rewrite Hst.
  mstep ensures_init_member. intros [o t]; cbn [snd]; intros [p ->].
  destruct o as [[] | e]; [| repeat split].
  mstep ensures_init_member. intros [o t]; cbn [snd]; intros [p0 ->].
  destruct o as [[] | e]; [| repeat split].
  mstep ensures_init_member. intros [o t]; cbn [snd]; intros [p1 ->].
  destruct o as [[] | e]; [| repeat split].
  mget.
  mstep (@ensures_os_call exec_path_args Z).
  intros [[pid | e] t]; cbn [fst snd]; intros [-> _]; [| repeat split].
  apply ensures_mbind. destruct (pid =? 0).
  { eapply ensures_weaken; [apply ensures_exec_in_child | intros ? [] | auto]. }
  unfold mret at 1. cbn [ensures].
  mstep ensures_close_out. intros ? ->.
  mstep ensures_close_in. intros ? ->.
  mstep ensures_close_in. intros ? ->.
  mstep ensures_now_ns. intros ? [tm ->].
  apply ensures_mbind. unfold modify at 1. cbn [ensures].
  apply ensures_mbind. unfold modify at 1. cbn [ensures].
  apply ensures_mbind. unfold modify at 1. cbn [ensures].
  destruct (negb (timeout =? 0)).
  - apply ensures_mbind.
    match goal with
    | |- ensures (_ ?X) _ _ =>
        eapply ensures_weaken;
          [exact (update_and_get_state_rec_not_ready 0 timeout X
                    ltac:(cbn; discriminate))
          | | intros ? []]
    end.
    intros [[st | e] t] Ht; cbn [snd] in Ht; exact Ht.
  - mget. repeat split.
Qed.

(** ** The lifecycle *)

Lemma query_status_outcome (b : bool) (this : exec_path_args) :
  ensures (query_status b this)
    (fun r => handle (snd r) = handle this
              /\ (current_state (snd r) = current_state this
                  \/ (current_state this = running
                      /\ current_state (snd r) = finished)))
    (fun _ => False).
Proof.
  unfold query_status. mget.
  destruct (negb (manages_process this)); [split; [reflexivity | left; reflexivity] |].
  destruct (state_eqb (current_state this) running) eqn:Er.
  - assert (Hr : current_state this = running)
      by (destruct (current_state this); try discriminate Er; reflexivity).
    mstep (@ensures_os_call exec_path_args (Z * siginfo_t)).
    intros [[[ret status] | e] t]; cbn [fst snd]; intros [-> _];
      [| split; [reflexivity | left; reflexivity]].
    match goal with |- context [if ?c then _ else _] => destruct c end;
      [| split; [reflexivity | left; reflexivity]].
    apply ensures_mbind.
    match goal with |- context [if ?c then _ else _] => destruct c end;
      [split; [reflexivity | left; reflexivity] |].
    unfold mret at 1. cbn [ensures].
    mstep ensures_now_ns. intros ? [tm ->].
    split; [reflexivity | right; split; [exact Hr | reflexivity]].
  - destruct (state_eqb (current_state this) finished);
      (split; [reflexivity | left; reflexivity]).
Qed.

Ltac fin E :=
  unfold throw, mret; cbn [ensures fst snd]; rewrite ?E; repeat split;
  try (left; reflexivity); try assumption; try (intros; reflexivity).

(** What a call that does not start in [ready] comes to. *)
Lemma update_and_get_state_rec_outcome (depth : nat) (timeout : Z)
    (this : exec_path_args) :
  current_state this <> ready ->
  ensures (update_and_get_state_rec depth timeout this)
    (fun r => handle (snd r) = handle this
              /\ (current_state (snd r) = current_state this
                  \/ (current_state this = running
                      /\ current_state (snd r) = finished))
              /\ match fst r with
                 | returned st =>
                     st = mk_states (current_state this)
                            (current_state (snd r))
                     /\ manages_process this = true
                     /\ (timeout < 0 -> current_state (snd r) = finished)
                 | thrown _ => True
                 end)
    (fun _ => False).
Proof.
  intros Hst.
  destruct depth; cbn [update_and_get_state_rec];
    (destruct (current_state this) eqn:E;
     [fin E
     | congruence | | ]).
  (* finished, for either depth *)
  2, 4:
    (mget; apply ensures_mbind;
     destruct (negb (manages_process this)) eqn:Em;
     [fin E |];
     unfold mret at 1; cbn [ensures]; mget;
     apply negb_false_iff in Em; fin E).
  (* running, for either depth *)
  all: mget; apply ensures_mbind;
    (destruct (negb (manages_process this)) eqn:Em;
     [fin E |]);
    apply negb_false_iff in Em;
    unfold mret at 1; cbn [ensures];
    apply ensures_mbind;
    (eapply ensures_weaken;
     [apply (@ensures_os_call_expr exec_path_args Z); intros r; exact I
     | | intros ? []]);
    (intros [[pid_fd | e] t]; cbn [fst snd]; intros [-> _];
     [| fin E]);
    mstep (@ensures_os_call exec_path_args Z);
    (intros [[poll_res | e] t]; cbn [fst snd]; intros [-> _];
     [| fin E]);
    apply ensures_mbind;
    (eapply ensures_weaken with
       (P := fun r : outcome unit * exec_path_args =>
               handle (snd r) = handle this
               /\ (current_state (snd r) = current_state this
                   \/ (current_state this = running
                       /\ current_state (snd r) = finished)));
     [destruct (poll_res =? 1);
      [apply query_status_outcome
      | split; [reflexivity | left; reflexivity]]
     | | auto]);
    intros [[[] | e] t]; cbn [snd]; rewrite E; intros [Hh Hs];
    [| fin E];
    mget; apply ensures_mbind;
    (destruct (timeout <? 0) eqn:Et; cbn [andb];
     [destruct (state_eqb (current_state t) finished) eqn:Ef; cbn [negb];
      [| fin E] |]);
    unfold mret at 1; cbn [ensures]; mget; cbn [fst snd];
    (repeat split; [exact Hh | exact Hs | exact Em |]).
  all: cbn [snd].
  all: try (intros _; revert Ef; destruct (current_state t); intros Ef;
            try discriminate Ef; reflexivity).
  all: intros Hneg; apply Z.ltb_ge in Et; lia.
Qed.
Lemma manages_process_handle (a b : exec_path_args) :
  handle a = handle b -> manages_process a = manages_process b.
Proof. unfold manages_process. intros ->. reflexivity. Qed.

(** What a call comes to, from any state and with any timeout. *)
Lemma update_and_get_state_outcome (timeout : Z) (this : exec_path_args) :
  ensures (update_and_get_state timeout this)
    (fun r => (state_rank (current_state this)
               <= state_rank (current_state (snd r)))%nat
              /\ match fst r with
                 | returned st =>
                     previous st = current_state this
                     /\ current st = current_state (snd r)
                     /\ (timeout <> 0 \/ current_state this <> ready ->
                         manages_process (snd r) = true)
                     /\ (timeout < 0 -> current_state (snd r) = finished)
                 | thrown _ => True
                 end)
    (fun why => why = exited EXIT_FAILURE).
Proof.
  assert (Hnr : forall (d : nat) (x : exec_path_args),
             current_state x <> ready ->
             ensures (update_and_get_state_rec d timeout x)
               (fun r => (state_rank (current_state x)
                          <= state_rank (current_state (snd r)))%nat
                         /\ match fst r with
                            | returned st =>
                                previous st = current_state x
                                /\ current st = current_state (snd r)
                                /\ manages_process (snd r) = true
                                /\ (timeout < 0 ->
                                    current_state (snd r) = finished)
                            | thrown _ => True
                            end)
               (fun _ => False)).
  { intros d x Hx.
    eapply ensures_weaken;
      [apply (update_and_get_state_rec_outcome d timeout x Hx) | | auto].
    intros [[st | e] t]; cbn [fst snd]; intros [Hh [Hs Hr]].
    - destruct Hr as [-> [Hm Hf]]. cbn [previous current].
      rewrite (manages_process_handle t x Hh).
      repeat split; try assumption.
      destruct Hs as [-> | [-> ->]]; cbn; lia.
    - split; [| exact I]. destruct Hs as [-> | [-> ->]]; cbn; lia. }
  destruct (current_state this) eqn:Hst.
  1, 3, 4:
    (eapply ensures_weaken;
     [apply (Hnr 1%nat this); congruence | | intros ? []];
     intros [[st | e] t]; cbn [fst snd]; rewrite Hst; intros [Hr Hp];
     [destruct Hp as [? [? [? ?]]]; repeat split; auto | split; auto]).
  unfold update_and_get_state. cbn [update_and_get_state_rec]. rewrite Hst.
  mstep ensures_init_member. intros [o t]; cbn [snd]; intros [p ->].
  destruct o as [[] | e]; [| cbn; rewrite Hst; split; [cbn; lia | exact I]].
  mstep ensures_init_member. intros [o t]; cbn [snd]; intros [p0 ->].
  destruct o as [[] | e]; [| cbn; rewrite Hst; split; [cbn; lia | exact I]].
  mstep ensures_init_member. intros [o t]; cbn [snd]; intros [p1 ->].
  destruct o as [[] | e]; [| cbn; rewrite Hst; split; [cbn; lia | exact I]].
  mget.
  mstep (@ensures_os_call exec_path_args Z).
  intros [[pid | e] t]; cbn [fst snd]; intros [-> _];
    [| cbn; rewrite Hst; split; [cbn; lia | exact I]].
  apply ensures_mbind. destruct (pid =? 0).
  { eapply ensures_weaken; [apply ensures_exec_in_child | intros ? [] | auto]. }
  unfold mret at 1. cbn [ensures].
  mstep ensures_close_out. intros ? ->.
  mstep ensures_close_in. intros ? ->.
  mstep ensures_close_in. intros ? ->.
  mstep ensures_now_ns. intros ? [tm ->].
  apply ensures_mbind. unfold modify at 1. cbn [ensures].
  apply ensures_mbind. unfold modify at 1. cbn [ensures].
  apply ensures_mbind. unfold modify at 1. cbn [ensures].
  destruct (timeout =? 0) eqn:Et; cbn [negb].
  - mget. cbn. apply Z.eqb_eq in Et. repeat split; try lia.
    intros [H | H]; congruence.
  - apply ensures_mbind.
    match goal with
    | |- ensures (_ ?X) _ _ =>
        eapply ensures_weaken;
          [exact (Hnr 0%nat X ltac:(cbn; discriminate)) | | intros ? []]
    end.
    intros [[st | e] t]; cbn [fst snd set_current_state current_state];
      intros [Hr Hp].
    + destruct Hp as [Hprev [Hcur [Hm Hf]]].
      cbn [fst snd current previous]. rewrite Hcur.
      repeat split; auto. cbn in Hr |- *. lia.
    + split; [cbn in Hr |- *; lia | exact I].
Qed.

(** X1. [update_and_get_state] reports what happened, and the lifecycle only
    moves forward: whatever the OS does, a call that returns gives the state
    in which it found the launcher as [previous] and the state in which it
    leaves it as [current]; and whether it returns or throws, the state it
    leaves is not before the one it found.  The process stops only in the
    child of the fork. *)
Theorem update_and_get_state_reports_states (timeout : Z)
    (this : exec_path_args) :
  ensures (update_and_get_state timeout this)
    (fun r => (state_rank (current_state this)
               <= state_rank (current_state (snd r)))%nat
              /\ match fst r with
                 | returned st =>
                     st = mk_states (current_state this)
                            (current_state (snd r))
                 | thrown _ => True
                 end)
    (fun why => why = exited EXIT_FAILURE).
Proof.
  eapply ensures_weaken;
    [apply update_and_get_state_outcome | | auto].
  intros [[[prev cur] | e] t]; cbn [fst snd previous current];
    intros [Hr Hp]; split; auto.
  destruct Hp as [-> [-> _]]. reflexivity.
Qed.

(** X2. When [finish_and_get_prev_state] returns, the launcher is finished
    and owns its process, and the value returned is the state before the
    call; [finish] is the same without the value.  Whatever the OS does,
    they cannot return and leave a process running. *)
Theorem finish_leaves_finished (this : exec_path_args) :
  ensures (finish_and_get_prev_state this)
    (fun r => match fst r with
              | returned prev =>
                  prev = current_state this
                  /\ current_state (snd r) = finished
                  /\ manages_process (snd r) = true
              | thrown _ => True
              end)
    (fun why => why = exited EXIT_FAILURE)
  /\ ensures (finish this)
       (fun r => match fst r with
                 | returned _ =>
                     current_state (snd r) = finished
                     /\ manages_process (snd r) = true
                 | thrown _ => True
                 end)
       (fun why => why = exited EXIT_FAILURE).
Proof.
  assert (H1 : ensures (finish_and_get_prev_state this)
                 (fun r => match fst r with
                           | returned prev =>
                               prev = current_state this
                               /\ current_state (snd r) = finished
                               /\ manages_process (snd r) = true
                           | thrown _ => True
                           end)
                 (fun why => why = exited EXIT_FAILURE)).
  { unfold finish_and_get_prev_state. apply ensures_mbind.
    eapply ensures_weaken;
      [apply (update_and_get_state_outcome (-1) this) | | auto].
    intros [[st | e] t]; cbn [fst snd]; intros [_ Hp]; [| exact I].
    destruct Hp as [Hprev [_ [Hm Hf]]]. cbn.
    repeat split; [exact Hprev | apply Hf; lia | apply Hm; left; lia]. }
  split; [exact H1 |].
  unfold finish. apply ensures_mbind.
  eapply ensures_weaken; [exact H1 | | auto].
  intros [[prev | e] t]; cbn [fst snd]; [| auto].
  intros [_ [Hf Hm]]. cbn. split; assumption.
Qed.

(** ** A running launcher is polled *)

(** X3. On a finished launcher that owns its process, every
    [update_and_get_state], with any timeout, returns
    [{finished, finished}] without a call to the OS and without a change;
    so a [finish] there is free.  Without a process the call is refused. *)
Theorem finished_is_absorbing (timeout : Z) (this : exec_path_args) :
  current_state this = finished ->
  (manages_process this = true ->
   update_and_get_state timeout this
   = Ret (returned (mk_states finished finished), this)
   /\ finish this = Ret (returned tt, this))
  /\ (manages_process this = false ->
      refused (update_and_get_state timeout this) this).
Proof.
  intros Hst. split; intros Hm.
  - unfold finish, finish_and_get_prev_state, update_and_get_state.
    cbn [update_and_get_state_rec]. unfold mbind, get_this, mret, throw.
    rewrite Hst. cbn [bind]. rewrite Hm. cbn [negb bind]. rewrite Hst.
    split; reflexivity.
  - unfold refused, update_and_get_state.
    cbn [update_and_get_state_rec]. unfold mbind, get_this, mret, throw.
    rewrite Hst. cbn [bind]. rewrite Hm. cbn [negb bind].
    eexists. reflexivity.
Qed.

Ltac enter_running Hm Hst :=
  unfold update_and_get_state; cbn [update_and_get_state_rec];
  unfold mbind, get_this, mret, throw, os_call, lift, SYSCALL_HELPER, call;
  rewrite Hst; cbn [bind]; rewrite Hm; cbn [negb bind].

Ltac answer_ok H :=
  apply after_cons; unfold id; cbn [bind fst snd];
  rewrite ?static_cast_int_id
    by (unfold INT_MIN, INT_MAX in *; lia);
  match goal with
  | |- context [syscall_helper ?f ?l ?r] =>
      rewrite (syscall_helper_ok f l r H)
  end; cbn [bind].

(** X4. A running launcher is polled and found still running: the process
    is looked up with [pidfd_open], polled with the timeout of the caller,
    and when the poll does not report it ready (and the wait was not meant
    to last for ever), the call returns [{running, running}] with no reap
    at all, and the launcher is what it was. *)
Theorem running_and_not_ready (timeout : Z) (this : exec_path_args)
    (r1 p : Z) :
  manages_process this = true ->
  current_state this = running ->
  0 <= timeout ->
  0 <= r1 <= INT_MAX -> 0 <= p <= INT_MAX -> p <> 1 ->
  after (update_and_get_state timeout this)
    [Ev (sys_syscall SYS_pidfd_open (handle this) 0) r1;
     Ev (sys_poll r1 POLLIN timeout) p]
    (Ret (returned (mk_states running running), this)).
Proof.
  intros Hm Hst Ht Hr1 Hp Hp1. enter_running Hm Hst.
  answer_ok Hr1. answer_ok Hp.
  replace (p =? 1) with false by (symmetry; apply Z.eqb_neq; exact Hp1).
  cbn [bind].
  replace (timeout <? 0) with false by (symmetry; apply Z.ltb_ge; exact Ht).
  cbn [andb bind]. rewrite Hst. apply after_nil.
Qed.
Lemma exit_code_test (info : siginfo_t) :
  si_code info = CLD_EXITED \/ si_code info = CLD_KILLED
    \/ si_code info = CLD_DUMPED ->
  (si_code info =? CLD_EXITED) || (si_code info =? CLD_KILLED)
    || (si_code info =? CLD_DUMPED) = true.
Proof. intros [-> | [-> | ->]]; reflexivity. Qed.

(** X5. A running launcher is polled and reaped: when the poll reports the
    process ready, it is reaped with [waitid (P_PID, handle, ...,
    WEXITED | WNOHANG)]; when that reports the child of the handle as
    exited, killed or dumped, the clock is read and the call returns
    [{running, finished}], whatever the timeout.  From then on
    [get_return_code] gives the reported status (the exit code, or the
    number of the signal), and [time_running_ms] the time from the spawn to
    that reading of the clock, both without a call to the OS.  The time of
    the end is the reading in nanoseconds as [now_ns] computes it, in 64
    bits: a reading that does not fit wraps around, and so does the
    difference that [time_running_ms] takes. *)
Theorem running_and_reaped (timeout : Z) (this : exec_path_args)
    (r1 ret : Z) (info : siginfo_t) (tv : Z * Z) :
  manages_process this = true ->
  current_state this = running ->
  0 <= r1 <= INT_MAX -> 0 <= ret <= INT_MAX ->
  si_pid info = handle this -> handle this <> 0 ->
  si_code info = CLD_EXITED \/ si_code info = CLD_KILLED
    \/ si_code info = CLD_DUMPED ->
  let now := wrap_long (wrap_long (fst tv * 1000000000) + snd tv) in
  let this' :=
    set_return_code (si_status info)
      (set_current_state finished (set_time_finished_ns now this)) in
  after (update_and_get_state timeout this)
    [Ev (sys_syscall SYS_pidfd_open (handle this) 0) r1;
     Ev (sys_poll r1 POLLIN timeout) 1;
     Ev (sys_waitid P_PID (handle this) siginfo_zero (Z.lor WEXITED WNOHANG))
       (ret, info);
     Ev (sys_clock_gettime CLOCK_MONOTONIC) tv]
    (Ret (returned (mk_states running finished), this'))
  /\ get_return_code this' = Ret (returned (si_status info), this')
  /\ time_running_ms this'
     = Ret (returned (time_diff_ms now (time_spawned_ns this)), this').
Proof.
  intros Hm Hst Hr1 Hret Hpid Hnz Hcode now this'.
  assert (Hm' : manages_process this' = true) by exact Hm.
  split; [| split].
  - assert (H1 : 0 <= 1 <= INT_MAX) by (unfold INT_MAX; lia).
    enter_running Hm Hst.
    answer_ok Hr1. answer_ok H1.
    unfold query_status, mbind, get_this, mret, throw, os_call, lift,
      SYSCALL_HELPER, call, noexcept, modify, now_ns.
    cbn [bind Z.eqb Pos.eqb]. rewrite Hm, Hst. cbn [negb state_eqb bind].
    answer_ok Hret.
    rewrite Hpid, (exit_code_test info Hcode), Z.eqb_refl.
    replace (handle this =? 0) with false
      by (symmetry; apply Z.eqb_neq; exact Hnz).
    cbn [negb andb bind]. apply after_cons. destruct tv as [sec nsec].
    cbn [bind fst snd].
    cbn [current_state set_return_code set_current_state
           set_time_finished_ns state_eqb negb andb].
    destruct (timeout <? 0); cbn [andb bind]; apply after_nil.
  - unfold get_return_code, mbind, get_this, mret, throw. cbn [bind].
    rewrite Hm'. reflexivity.
  - unfold time_running_ms, mbind, get_this, mret, throw. cbn [bind].
    rewrite Hm'. reflexivity.
Qed.

(** X6. Waiting for ever can only end with the end of the process: with a
    negative timeout, a running launcher of which the poll does not report
    the process ready, or of which the reap finds no child that ended,
    throws (a fatal error, not an InvalidState), and stays running; it does
    not return [{running, running}]. *)
Theorem blocking_wait_without_end (timeout : Z) (this : exec_path_args)
    (r1 p ret : Z) (info : siginfo_t) :
  manages_process this = true ->
  current_state this = running ->
  timeout < 0 ->
  0 <= r1 <= INT_MAX -> 0 <= p <= INT_MAX -> 0 <= ret <= INT_MAX ->
  si_pid info = 0 ->
  let failure :=
    runtime_error Fatal
      (lit "failed to wait for child process to finish without any timeout!") in
  (p <> 1 ->
   after (update_and_get_state timeout this)
     [Ev (sys_syscall SYS_pidfd_open (handle this) 0) r1;
      Ev (sys_poll r1 POLLIN timeout) p]
     (Ret (thrown failure, this)))
  /\ after (update_and_get_state timeout this)
       [Ev (sys_syscall SYS_pidfd_open (handle this) 0) r1;
        Ev (sys_poll r1 POLLIN timeout) 1;
        Ev (sys_waitid P_PID (handle this) siginfo_zero
              (Z.lor WEXITED WNOHANG)) (ret, info)]
       (Ret (thrown failure, this)).
Proof.
  intros Hm Hst Ht Hr1 Hp Hret Hpid failure.
  assert (H1 : 0 <= 1 <= INT_MAX) by (unfold INT_MAX; lia).
  split.
  - intros Hp1. enter_running Hm Hst.
    answer_ok Hr1. answer_ok Hp.
    replace (p =? 1) with false by (symmetry; apply Z.eqb_neq; exact Hp1).
    cbn [bind].
    replace (timeout <? 0) with true by (symmetry; apply Z.ltb_lt; exact Ht).
    rewrite Hst. cbn [andb state_eqb negb bind]. apply after_nil.
  - enter_running Hm Hst.
    answer_ok Hr1. answer_ok H1.
    unfold query_status, mbind, get_this, mret, throw, os_call, lift,
      SYSCALL_HELPER, call, noexcept, modify, now_ns.
    cbn [bind Z.eqb Pos.eqb]. rewrite Hm, Hst. cbn [negb state_eqb bind].
    answer_ok Hret.
    rewrite Hpid. cbn [Z.eqb negb andb bind].
    replace (timeout <? 0) with true by (symmetry; apply Z.ltb_lt; exact Ht).
    rewrite Hst. cbn [andb state_eqb negb bind]. apply after_nil.
Qed.

(** X7. The reap must name the process of the handle: when [waitid] reports
    the end of a child with another pid, the call throws (a fatal error),
    and the launcher is left running, with no return code and no finish
    time recorded. *)
Theorem reap_of_another_pid (timeout : Z) (this : exec_path_args)
    (r1 ret : Z) (info : siginfo_t) :
  manages_process this = true ->
  current_state this = running ->
  0 <= r1 <= INT_MAX -> 0 <= ret <= INT_MAX ->
  si_pid info <> 0 -> si_pid info <> handle this ->
  si_code info = CLD_EXITED \/ si_code info = CLD_KILLED
    \/ si_code info = CLD_DUMPED ->
  after (update_and_get_state timeout this)
    [Ev (sys_syscall SYS_pidfd_open (handle this) 0) r1;
     Ev (sys_poll r1 POLLIN timeout) 1;
     Ev (sys_waitid P_PID (handle this) siginfo_zero (Z.lor WEXITED WNOHANG))
       (ret, info)]
    (Ret (thrown
            (runtime_error Fatal
               (lit "waitid returned unexpected pid - different from the managed one!")),
          this)).
Proof.
  intros Hm Hst Hr1 Hret Hnz Hne Hcode.
  assert (H1 : 0 <= 1 <= INT_MAX) by (unfold INT_MAX; lia).
  enter_running Hm Hst.
  answer_ok Hr1. answer_ok H1.
  unfold query_status, mbind, get_this, mret, throw, os_call, lift,
    SYSCALL_HELPER, call, noexcept, modify, now_ns.
  cbn [bind Z.eqb Pos.eqb]. rewrite Hm, Hst. cbn [negb state_eqb bind].
  answer_ok Hret.
  rewrite (exit_code_test info Hcode).
  replace (si_pid info =? 0) with false
    by (symmetry; apply Z.eqb_neq; exact Hnz).
  replace (si_pid info =? handle this) with false
    by (symmetry; apply Z.eqb_neq; exact Hne).
  cbn [negb andb bind]. apply after_nil.
Qed.

(** ** The spawn *)

(** X8. After a spawn the parent holds just the pipe ends it needs: when the
    three pipes and the fork succeed, [update_and_get_state (0)] leaves the
    launcher with the write end of the stdin pipe and the read ends of the
    stdout and stderr pipes as [pipe] gave them, the three other ends
    closed, the pid as handle, and the command, the buffers and the cursors
    untouched. *)
Theorem spawn_keeps_parent_ends {W : Type} (h : os W)
    (this : exec_path_args) (w : W)
    (r1 a1 b1 r2 a2 b2 r3 a3 b3 pid : Z) (w1 w2 w3 w4 : W) :
  current_state this = ready ->
  h _ (sys_pipe (fds0 (stdin_pipe this), fds1 (stdin_pipe this))) w
    = ((r1, (a1, b1)), w1) -> 0 <= r1 <= INT_MAX ->
  h _ (sys_pipe (fds0 (stdout_pipe this), fds1 (stdout_pipe this))) w1
    = ((r2, (a2, b2)), w2) -> 0 <= r2 <= INT_MAX ->
  h _ (sys_pipe (fds0 (stderr_pipe this), fds1 (stderr_pipe this))) w2
    = ((r3, (a3, b3)), w3) -> 0 <= r3 <= INT_MAX ->
  h _ sys_fork w3 = (pid, w4) -> 0 < pid <= INT_MAX ->
  exists this' w',
    run h (update_and_get_state 0 this) w
      = (Done (returned (mk_states ready running), this'), w')
    /\ stdin_pipe this' = mk_pipe_helper invalid_fd b1
    /\ stdout_pipe this' = mk_pipe_helper a2 invalid_fd
    /\ stderr_pipe this' = mk_pipe_helper a3 invalid_fd
    /\ handle this' = pid
    /\ path this' = path this /\ args this' = args this
    /\ same_output this this'.
Proof.
  intros Hst E1 H1 E2 H2 E3 H3 E4 H4.
  unfold update_and_get_state, update_and_get_state_rec. rewrite Hst.
  rewrite run_mbind, run_on_member, (run_init_ok h _ _ _ _ _ _ E1 H1).
  rewrite run_mbind, run_on_member. cbn [stdout_pipe set_stdin_pipe].
  rewrite (run_init_ok h _ _ _ _ _ _ E2 H2).
  rewrite run_mbind, run_on_member.
  cbn [stderr_pipe set_stdout_pipe set_stdin_pipe].
  rewrite (run_init_ok h _ _ _ _ _ _ E3 H3).
  rewrite run_mbind. unfold get_this at 1. cbn [run].
  rewrite run_mbind.
  rewrite (run_os_call_ok h _ _ _ _ _ _ _ _ E4) by (unfold id; lia).
  replace (pid =? 0) with false by (symmetry; apply Z.eqb_neq; lia).
  rewrite run_mbind. unfold mret at 1. cbn [run].
  rewrite run_mbind, run_on_member, run_noexcept.
  match goal with |- context [run h (close_out ?p) ?w0] =>
    destruct (run_close_out h p w0) as [w5 ->] end.
  rewrite run_mbind, run_on_member, run_noexcept.
  match goal with |- context [run h (close_in ?p) ?w0] =>
    destruct (run_close_in h p w0) as [w6 ->] end.
  rewrite run_mbind, run_on_member, run_noexcept.
  match goal with |- context [run h (close_in ?p) ?w0] =>
    destruct (run_close_in h p w0) as [w7 ->] end.
  rewrite run_mbind, run_noexcept. unfold now_ns. simpl.
  destruct (h _ (sys_clock_gettime CLOCK_MONOTONIC) w7) as [[sec nsec] w8].
  simpl. eexists _, _. repeat split.
Qed.
Lemma close_fd_open (fd : Z) :
  fd <> invalid_fd ->
  close_fd fd
  = Sys (sys_close fd)
      (fun r =>
         _ <- (if r =? -1 then
                 errno_val <- current_errno ;;
                 if errno_val =? EBADF then
                   call (cerr_write
                           (lit "`close` failed - invalid file descriptor!"
                              ++ [LF]))
                 else if errno_val =? EINTR then
                   call (cerr_write
                           (lit "`close` failed - was interrupted by a signal!"
                              ++ [LF]))
                 else if errno_val =? EIO then
                   call (cerr_write
                           (lit "`close` failed - I/O error occurred!" ++ [LF]))
                 else
                   _ <- call (cerr_write
                                (lit "`close` failed - by https://linux.die.net/man/2/close unspecified `errno` ")) ;;
                   _ <- call (cerr_write (to_string errno_val)) ;;
                   call (cerr_write (lit "!" ++ [LF]))
               else Ret tt) ;;
         Ret invalid_fd).
Proof.
  intros Hfd. unfold close_fd.
  replace (fd =? invalid_fd) with false
    by (symmetry; apply Z.eqb_neq; exact Hfd).
  reflexivity.
Qed.

Ltac close_ok Hfd Hc :=
  rewrite (close_fd_open _ Hfd); cbn [bind]; apply after_cons;
  match goal with
  | |- context [?c =? -1] =>
      replace (c =? -1) with false by (symmetry; apply Z.eqb_neq; exact Hc)
  end; cbn [bind].

(** X9. The child of the fork, step by step: it closes the write end of the
    stdin pipe and makes the read end its standard input, closes the read
    end of the stdout pipe and makes the write end its standard output,
    does the same for stderr, and only then calls [execv], with the C string
    of the path as the file and the array of [build_args_cstr] as [argv].
    When [execv] comes back, the child writes the cause to its standard
    error and exits with [EXIT_FAILURE]; it never returns into the code of
    the parent.  When a [dup2] fails, [execv] is not called at all. *)
Theorem child_redirects_then_execs (this : exec_path_args)
    (c1 d1 c2 d2 c3 d3 e en : Z) (cause : std_string) :
  get_in (stdin_pipe this) <> invalid_fd ->
  get_out (stdout_pipe this) <> invalid_fd ->
  get_out (stderr_pipe this) <> invalid_fd ->
  c1 <> -1 -> c2 <> -1 -> c3 <> -1 ->
  0 <= d2 <= INT_MAX -> 0 <= d3 <= INT_MAX ->
  INT_MIN <= e < 0 ->
  let argv := build_args_cstr (path this) (args this) in
  let report (line ret : Z) :=
    [Ev get_errno en; Ev (libc_strerror en) cause;
     Ev (cerr_write (lit "child process failed - caught exception: ")) tt;
     Ev (cerr_write
           (syscall_error_text FILE_exec_path_args line ret en cause)) tt;
     Ev (cerr_write [LF]) tt] in
  (0 <= d1 <= INT_MAX ->
   after (exec_in_child (A := unit) argv this)
     ([Ev (sys_close (get_in (stdin_pipe this))) c1;
       Ev (sys_dup2 (get_out (stdin_pipe this)) STDIN_FILENO) d1;
       Ev (sys_close (get_out (stdout_pipe this))) c2;
       Ev (sys_dup2 (get_in (stdout_pipe this)) STDOUT_FILENO) d2;
       Ev (sys_close (get_out (stderr_pipe this))) c3;
       Ev (sys_dup2 (get_in (stderr_pipe this)) STDERR_FILENO) d3;
       Ev (sys_execv (ptr_to (c_str (path this))) argv) e]
        ++ report 348 e)
     (Stop (exited EXIT_FAILURE)))
  /\ (INT_MIN <= d1 < 0 ->
      after (exec_in_child (A := unit) argv this)
        ([Ev (sys_close (get_in (stdin_pipe this))) c1;
          Ev (sys_dup2 (get_out (stdin_pipe this)) STDIN_FILENO) d1]
           ++ report 339 d1)
        (Stop (exited EXIT_FAILURE))).
Proof.
  intros Hf1 Hf2 Hf3 Hc1 Hc2 Hc3 Hd2 Hd3 He argv report.
  assert (Hargv0 : nth 0 argv indeterminate = ptr_to (c_str (path this))).
  { subst argv. rewrite build_args_cstr_eq. reflexivity. }
  assert (Hfail : forall (line r : Z), INT_MIN <= r < 0 ->
             syscall_helper FILE_exec_path_args line r
             = Sys get_errno (fun errno_val =>
                 Sys (libc_strerror errno_val) (fun cause =>
                   Ret (thrown (runtime_error SyscallError
                                  (syscall_error_text FILE_exec_path_args line
                                     r errno_val cause)))))).
  { intros line r Hr. unfold syscall_helper, check_syscall_ret_val.
    rewrite static_cast_int_id by (unfold INT_MIN, INT_MAX in *; lia).
    replace (r <? 0) with true by (symmetry; apply Z.ltb_lt; lia).
    reflexivity. }
  unfold get_in, get_out in *.
  split; intros Hd1.
  - unfold exec_in_child, mbind, on_member, noexcept, close_in, close_out,
      get_this, os_call, lift, SYSCALL_HELPER, call, get_in, get_out.
    cbn [bind stdin_pipe stdout_pipe stderr_pipe].
    close_ok Hf1 Hc1. cbn [stdin_pipe set_stdin_pipe fds0 fds1 bind].
    answer_ok Hd1.
    cbn [stdin_pipe stdout_pipe set_stdin_pipe fds0 fds1 bind].
    close_ok Hf2 Hc2. cbn [stdout_pipe set_stdout_pipe fds0 fds1 bind].
    answer_ok Hd2.
    cbn [stdin_pipe stdout_pipe stderr_pipe set_stdin_pipe set_stdout_pipe
           fds0 fds1 bind].
    close_ok Hf3 Hc3. cbn [stderr_pipe set_stderr_pipe fds0 fds1 bind].
    answer_ok Hd3.
    rewrite Hargv0. apply after_cons. unfold id. cbn [bind].
    rewrite (Hfail 348 e He). cbn [bind what].
    repeat apply after_cons. apply after_nil.
  - unfold exec_in_child, mbind, on_member, noexcept, close_in, close_out,
      get_this, os_call, lift, SYSCALL_HELPER, call, get_in, get_out.
    cbn [bind stdin_pipe stdout_pipe stderr_pipe].
    close_ok Hf1 Hc1. cbn [stdin_pipe set_stdin_pipe fds0 fds1 bind].
    apply after_cons. unfold id. cbn [bind].
    rewrite (Hfail 339 d1 Hd1). cbn [bind what].
    repeat apply after_cons. apply after_nil.
Qed.

(** ** Writing to the child *)

Lemma size_skipn (n : nat) (s : std_string) :
  (n <= length s)%nat -> size (skipn n s) = size s - Z.of_nat n.
Proof. intros H. unfold size. rewrite length_skipn. lia. Qed.

(** The loop against the pipe that takes pieces: it hands over the rest of
    the data, whatever the pieces. *)
Lemma write_loop_delivers (data : std_string) (this : exec_path_args)
    (fuel : nat) :
  size data <= INT_MAX ->
  forall (written : nat) (received : std_string) (limits : list nat),
    (written <= length data)%nat ->
    (length data - written <= fuel)%nat ->
    exists limits',
      run partial_write_os
        (write_loop fuel data (size data) (Z.of_nat written) this)
        (received, limits)
      = (Done (returned tt, this), (received ++ skipn written data, limits')).
Proof.
  intros Hmax. induction fuel as [| fuel IH];
    intros written received limits Hw Hf.
  - assert (written = length data) by lia. subst written.
    cbn [write_loop]. unfold size. rewrite Z.ltb_irrefl.
    rewrite skipn_all, app_nil_r. eexists. reflexivity.
  - cbn [write_loop]. destruct (Z.of_nat written <? size data) eqn:E.
    + apply Z.ltb_lt in E. unfold size in E.
      rewrite run_mbind. unfold get_this at 1. cbn [run].
      rewrite run_mbind.
      set (count := size data - Z.of_nat written).
      set (buf := skipn (Z.to_nat (Z.of_nat written)) data).
      set (limit := match limits with
                    | [] => Z.to_nat count
                    | l :: _ => Nat.min (S l) (Z.to_nat count)
                    end).
      assert (Hbuf : length buf = Z.to_nat count).
      { subst buf count. rewrite length_skipn, Nat2Z.id. unfold size. lia. }
      assert (Hlim : (1 <= limit <= Z.to_nat count)%nat).
      { subst limit count. unfold size. destruct limits; lia. }
      assert (Htaken : length (firstn limit buf) = limit)
        by (rewrite length_firstn; lia).
      erewrite run_os_call_ok with (r := size (firstn limit buf));
        [| reflexivity
         | unfold id, size; rewrite Htaken; subst count;
           unfold size, INT_MAX in *; lia].
      cbn [fst snd].
      replace (Z.of_nat written + size (firstn limit buf))
        with (Z.of_nat (written + limit))
        by (unfold size; rewrite Htaken; lia).
      destruct (IH (written + limit)%nat (received ++ firstn limit buf)
                  (tl limits)) as [limits' Hrun].
      * subst count. unfold size in Hlim. lia.
      * subst count. unfold size in Hlim. lia.
      * exists limits'. refine (eq_trans Hrun _). f_equal. f_equal.
        rewrite <- app_assoc. f_equal. subst buf. rewrite Nat2Z.id.
        rewrite <- (firstn_skipn limit (skipn written data)) at 2.
        f_equal. rewrite skipn_skipn. f_equal. lia.
    + apply Z.ltb_ge in E. unfold size in E.
      assert (written = length data) by lia. subst written.
      rewrite skipn_all, app_nil_r. eexists. reflexivity.
Qed.

(** X10. [send_to_stdin] delivers all of the data, once and in order,
    however the pipe splits it: against a pipe that takes any number of
    characters (at least one) at each [write], the call returns, the pipe
    has received exactly the data, and the launcher is what it was.  As many
    rounds of the loop as there are characters are enough. *)
Theorem send_to_stdin_delivers (fuel : nat) (data : std_string)
    (limits : list nat) (this : exec_path_args) :
  manages_process this = true ->
  get_in (stdin_pipe this) <> invalid_fd ->
  current_state this = running ->
  size data <= INT_MAX ->
  (length data <= fuel)%nat ->
  exists limits',
    run partial_write_os (send_to_stdin fuel data this) ([], limits)
    = (Done (returned tt, this), (data, limits')).
Proof.
  intros Hm Hfd Hst Hmax Hfuel.
  unfold send_to_stdin. rewrite run_mbind. unfold get_this at 1. cbn [run].
  rewrite run_mbind. rewrite Hm, Hst.
  replace (get_in (stdin_pipe this) =? invalid_fd) with false
    by (symmetry; apply Z.eqb_neq; exact Hfd).
  cbn [negb state_eqb]. unfold mret at 1. cbn [run].
  destruct (write_loop_delivers data this fuel Hmax 0%nat [] limits)
    as [limits' H]; [lia | lia |].
  exists limits'. exact H.
Qed.

(** X11. A [write] that fails is not tried again: when the first [write]
    returns a negative value, [send_to_stdin] throws the SyscallError of
    that call, and makes no other [write].  The first [write] offers the
    whole of the data. *)
Theorem send_to_stdin_write_fails (fuel : nat) (data : std_string)
    (this : exec_path_args) (r en : Z) (cause : std_string) :
  manages_process this = true ->
  get_in (stdin_pipe this) <> invalid_fd ->
  current_state this = running ->
  data <> [] ->
  INT_MIN <= r < 0 ->
  after (send_to_stdin (S fuel) data this)
    [Ev (sys_write (get_in (stdin_pipe this)) data (size data)) r;
     Ev get_errno en; Ev (libc_strerror en) cause]
    (Ret (thrown (runtime_error SyscallError
                    (syscall_error_text FILE_exec_path_args 247 r en cause)),
          this)).
Proof.
  intros Hm Hfd Hst Hdata Hr.
  unfold send_to_stdin, mbind, get_this, mret, throw. cbn [bind].
  rewrite Hm, Hst.
  replace (get_in (stdin_pipe this) =? invalid_fd) with false
    by (symmetry; apply Z.eqb_neq; exact Hfd).
  cbn [negb state_eqb bind write_loop].
  replace (0 <? size data) with true
    by (symmetry; apply Z.ltb_lt; destruct data; [congruence | unfold size; cbn; lia]).
  unfold mbind, get_this, os_call, lift, SYSCALL_HELPER, call. cbn [bind].
  change (skipn (Z.to_nat 0) data) with data.
  replace (size data - 0) with (size data) by lia.
  apply after_cons. unfold id. cbn [bind].
  unfold syscall_helper, check_syscall_ret_val.
  rewrite static_cast_int_id by (unfold INT_MIN, INT_MAX in *; lia).
  replace (r <? 0) with true by (symmetry; apply Z.ltb_lt; lia).
  unfold current_errno, call. cbn [bind].
  repeat apply after_cons. apply after_nil.
Qed.

(** X12. The stdin of the child is closed once: on a running launcher with
    an open stdin pipe, [close_stdin] begins with the [close] of the write
    end and, whatever the OS answers, returns with that end marked closed
    and nothing else changed; after that a second [close_stdin], and any
    [send_to_stdin], are refused. *)
Theorem close_stdin_once {W : Type} (h : os W) (this : exec_path_args)
    (w : W) :
  manages_process this = true ->
  get_in (stdin_pipe this) <> invalid_fd ->
  current_state this = running ->
  let this' :=
    set_stdin_pipe this
      (mk_pipe_helper (fds0 (stdin_pipe this)) invalid_fd) in
  (exists k, close_stdin this = Sys (sys_close (get_in (stdin_pipe this))) k)
  /\ (exists w', run h (close_stdin this) w = (Done (returned tt, this'), w'))
  /\ refused (close_stdin this') this'
  /\ forall fuel data, refused (send_to_stdin fuel data this') this'.
Proof.
  intros Hm Hfd Hst this'.
  assert (Hneq : (get_in (stdin_pipe this) =? invalid_fd) = false)
    by (apply Z.eqb_neq; exact Hfd).
  assert (Hm' : manages_process this' = true) by exact Hm.
  split; [| split; [| split]].
  - unfold close_stdin, mbind, get_this, mret, throw, on_member, noexcept,
      close_in. cbn [bind]. rewrite Hm, Hst, Hneq.
    cbn [negb state_eqb orb bind]. unfold get_in in *.
    rewrite (close_fd_open _ Hfd). cbn [bind]. eexists. reflexivity.
  - unfold close_stdin. rewrite run_mbind. unfold get_this at 1. cbn [run].
    rewrite run_mbind. rewrite Hm, Hst, Hneq. cbn [negb state_eqb orb].
    unfold mret at 1. cbn [run].
    rewrite run_on_member, run_noexcept.
    destruct (run_close_in h (stdin_pipe this) w) as [w' ->].
    exists w'. reflexivity.
  - unfold refused, close_stdin, mbind, get_this, mret, throw. cbn [bind].
    rewrite Hm'. cbn [negb]. subst this'. cbn. rewrite Hst. cbn.
    eexists. reflexivity.
  - intros fuel data.
    unfold refused, send_to_stdin, mbind, get_this, mret, throw. cbn [bind].
    rewrite Hm'. cbn [negb]. subst this'. cbn.
    eexists. reflexivity.
Qed.

(** ** More on reading the output *)

Ltac enter_read Hm Hfd :=
  unfold read_stdout, read_stderr, get_stdout, get_stderr, update_buffer,
    mbind, get_this, mret, throw, on_member, read_pipe, modify, os_call,
    lift, SYSCALL_HELPER, call;
  cbn [bind]; rewrite Hm; cbn [negb bind];
  unfold get_out in *;
  match goal with
  | |- context [?fd =? invalid_fd] =>
      replace (fd =? invalid_fd) with false
        by (symmetry; apply Z.eqb_neq; exact Hfd)
  end; cbn [bind].

(** X13. With nothing to read, nothing is read: when the OS reports no
    character available (a count of zero, or less), [read_stdout] makes no
    [read] at all after its one [ioctl]; the buffer stays as it is, the
    whole mode shows it all, the incremental mode shows what lies behind
    the cursor, and the cursor goes to the end. *)
Theorem read_stdout_nothing_available (whole : bool) (this : exec_path_args)
    (r avail : Z) :
  manages_process this = true ->
  get_out (stdout_pipe this) <> invalid_fd ->
  0 <= r <= INT_MAX -> avail <= 0 ->
  after (read_stdout whole this)
    [Ev (sys_ioctl (get_out (stdout_pipe this)) FIONREAD 0) (r, avail)]
    (Ret (returned
            (fst (get_buffer (stdout_buffer this)
                    (stdout_consumed_bytes this) whole)),
          set_stdout_consumed_bytes (size (stdout_buffer this)) this)).
Proof.
  intros Hm Hfd Hr Ha.
  assert (Hlt : (0 <? avail) = false) by (apply Z.ltb_ge; exact Ha).
  enter_read Hm Hfd. answer_ok Hr.
  rewrite Hlt. unfold mret, throw. cbn [bind]. rewrite ?Hlt.
  cbn [bind stdout_buffer stdout_consumed_bytes set_stdout_buffer].
  rewrite ?Hlt. cbn [bind].
  destruct this. unfold get_buffer.
  destruct whole; cbn; rewrite ?Hlt; cbn; apply after_nil.
Qed.
Lemma skipn_repeat_NUL (k n : nat) :
  skipn k (repeat NUL n) = repeat NUL (n - k).
Proof.
  revert n; induction k as [| k IH]; intros n.
  - rewrite Nat.sub_0_r. reflexivity.
  - destruct n as [| n]; [reflexivity | apply IH].
Qed.

(** What a read that stores fewer characters than it was asked for leaves
    in the buffer: the characters, then the NULs of the resize. *)
Lemma store_at_short (buffer stored : std_string) (avail : Z) :
  0 < avail -> (length stored <= Z.to_nat avail)%nat ->
  store_at (resize buffer (size buffer + avail)) (size buffer) avail stored
  = buffer ++ stored ++ repeat NUL (Z.to_nat avail - length stored).
Proof.
  intros Ha Hs. unfold store_at, resize, size.
  rewrite (firstn_all2 stored) by lia.
  replace (Z.to_nat (Z.of_nat (length buffer) + avail))
    with (length buffer + Z.to_nat avail)%nat by lia.
  rewrite (firstn_all2 buffer) by lia.
  replace (length buffer + Z.to_nat avail - length buffer)%nat
    with (Z.to_nat avail) by lia.
  rewrite Nat2Z.id, firstn_app, firstn_all, Nat.sub_diag, firstn_0, app_nil_r.
  rewrite skipn_app, skipn_all2 by lia. cbn [app].
  replace (length buffer + length stored - length buffer)%nat
    with (length stored) by lia.
  rewrite skipn_repeat_NUL. reflexivity.
Qed.

(** X14. A short read is an error, and it leaves its mark: when the OS
    reports [avail] characters and the [read] then returns fewer,
    [read_stdout] throws (the short-read error, in either mode).  By then
    the buffer has been resized: it holds what it held, the characters
    read, and NUL characters up to [avail]; the cursor has not moved, so the
    next incremental read will show these too. *)
Theorem read_stdout_short_read (whole : bool) (this : exec_path_args)
    (r avail n : Z) (stored : std_string) :
  manages_process this = true ->
  get_out (stdout_pipe this) <> invalid_fd ->
  0 <= r <= INT_MAX ->
  0 <= n < avail -> avail <= INT_MAX ->
  size stored = n ->
  after (read_stdout whole this)
    [Ev (sys_ioctl (get_out (stdout_pipe this)) FIONREAD 0) (r, avail);
     Ev (sys_read (get_out (stdout_pipe this)) avail) (n, stored)]
    (Ret (thrown
            (runtime_error ShortRead
               (lit "failed to read all available bytes from given pipe!")),
          set_stdout_buffer this
            (stdout_buffer this ++ stored
               ++ repeat NUL (Z.to_nat (avail - n))))).
Proof.
  intros Hm Hfd Hr Hn Ha Hs.
  assert (Hlt : (0 <? avail) = true) by (apply Z.ltb_lt; lia).
  assert (Hn' : 0 <= n <= INT_MAX) by lia.
  enter_read Hm Hfd. answer_ok Hr.
  rewrite Hlt. unfold mret, throw. cbn [bind].
  apply after_cons. cbn [bind].
  rewrite (syscall_helper_ok _ _ n Hn'). cbn [bind].
  replace (n <? avail) with true by (symmetry; apply Z.ltb_lt; lia).
  cbn [bind].
  rewrite store_at_short by (unfold size in Hs; lia).
  replace (Z.to_nat avail - length stored)%nat with (Z.to_nat (avail - n))
    by (unfold size in Hs; lia).
  apply after_nil.
Qed.

(** X15. Reading is only reading.  Each of [read_stdout], [read_stderr],
    [get_stdout] and [get_stderr], whatever the OS answers and whether it
    returns or throws, leaves the process as it was (path, arguments, times,
    handle, pipes, state and return code), leaves the buffer and the cursor
    of the other stream as they were, and never ends the calling process. *)
Theorem reads_touch_one_stream (whole : bool) (this : exec_path_args) :
  ensures (read_stdout whole this)
    (fun r => same_process this (snd r)
              /\ stderr_buffer (snd r) = stderr_buffer this
              /\ stderr_consumed_bytes (snd r) = stderr_consumed_bytes this)
    (fun _ => False)
  /\ ensures (read_stderr whole this)
       (fun r => same_process this (snd r)
                 /\ stdout_buffer (snd r) = stdout_buffer this
                 /\ stdout_consumed_bytes (snd r) = stdout_consumed_bytes this)
       (fun _ => False)
  /\ ensures (get_stdout this)
       (fun r => same_process this (snd r)
                 /\ stderr_buffer (snd r) = stderr_buffer this
                 /\ stderr_consumed_bytes (snd r) = stderr_consumed_bytes this)
       (fun _ => False)
  /\ ensures (get_stderr this)
       (fun r => same_process this (snd r)
                 /\ stdout_buffer (snd r) = stdout_buffer this
                 /\ stdout_consumed_bytes (snd r) = stdout_consumed_bytes this)
       (fun _ => False).
Proof.
  repeat split.
  - unfold read_stdout. mstep update_buffer_appends.
    intros [[[] | e] t]; cbn [snd]; intros [chunk ->].
    + mget. unfold get_buffer. destruct whole; cbn; repeat split.
    + repeat split.
  - unfold read_stderr. mstep update_buffer_appends.
    intros [[[] | e] t]; cbn [snd]; intros [chunk ->].
    + mget. unfold get_buffer. destruct whole; cbn; repeat split.
    + repeat split.
  - unfold get_stdout. mstep update_buffer_appends.
    intros [[[] | e] t]; cbn [snd]; intros [chunk ->].
    + mget. cbn. repeat split.
    + repeat split.
  - unfold get_stderr. mstep update_buffer_appends.
    intros [[[] | e] t]; cbn [snd]; intros [chunk ->].
    + mget. cbn. repeat split.
    + repeat split.
Qed.

(** X16. The next incremental read shows what it drained, whatever kind of
    read came before.  After a [read_stdout] (of either kind) that
    returned, a [read_stdout (false)] that returns has appended some
    characters to the buffer, and its view, looked at in the buffer, is of
    exactly these characters. *)
Theorem read_stdout_after_read {W : Type} (h : os W) (whole : bool)
    (this this1 this2 : exec_path_args) (w w1 w2 : W) (v0 v : string_view) :
  size (stdout_buffer this2) <= string_max_size ->
  run h (read_stdout whole this) w = (Done (returned v0, this1), w1) ->
  run h (read_stdout false this1) w1 = (Done (returned v, this2), w2) ->
  exists chunk,
    stdout_buffer this2 = stdout_buffer this1 ++ chunk
    /\ sv_chars (stdout_buffer this2) v = Some chunk
    /\ stdout_consumed_bytes this2 = size (stdout_buffer this2).
Proof.
  intros Hmax H1 H2.
  apply run_read_stdout in H1. destruct H1 as [c1 [-> _]].
  apply run_read_stdout in H2. destruct H2 as [chunk [-> ->]].
  cbn [stdout_buffer stdout_consumed_bytes set_stdout_consumed_bytes
       set_stdout_buffer] in *.
  exists chunk. split; [reflexivity | split; [| reflexivity]].
  apply sv_chars_increment. exact Hmax.
Qed.

(** X17. A whole read after [get_stdout] starts afresh.  [get_stdout]
    leaves an empty buffer; a [read_stdout (true)] that returns after it
    shows exactly the characters that arrived since, these are all the
    buffer holds, and the cursor is at the end of the buffer again. *)
Theorem read_whole_after_get_stdout {W : Type} (h : os W)
    (this this1 this2 : exec_path_args) (w w1 w2 : W)
    (s : std_string) (v : string_view) :
  run h (get_stdout this) w = (Done (returned s, this1), w1) ->
  run h (read_stdout true this1) w1 = (Done (returned v, this2), w2) ->
  stdout_buffer this1 = []
  /\ sv_chars (stdout_buffer this2) v = Some (stdout_buffer this2)
  /\ stdout_consumed_bytes this2 = size (stdout_buffer this2)
  /\ exists arrived, s = stdout_buffer this ++ arrived.
Proof.
  intros H1 H2.
  apply run_get_stdout in H1. destruct H1 as [c1 [-> [-> _]]].
  apply run_read_stdout in H2. destruct H2 as [chunk [-> ->]].
  cbn [stdout_buffer stdout_consumed_bytes set_stdout_consumed_bytes
       set_stdout_buffer app].
  split; [reflexivity | split; [| split; [reflexivity |]]].
  - apply sv_chars_whole.
  - exists c1. reflexivity.
Qed.

(** X18. The reads keep the cursors within the buffers.  When both cursors
    are within their buffers, they still are after [read_stdout] and after
    [read_stderr], in either mode, whatever the OS answers and whether the
    read returns or throws. *)
Theorem reads_keep_cursors (whole : bool) (this : exec_path_args) :
  cursors_within_buffers this ->
  ensures (read_stdout whole this)
    (fun r => cursors_within_buffers (snd r)) (fun _ => False)
  /\ ensures (read_stderr whole this)
       (fun r => cursors_within_buffers (snd r)) (fun _ => False).
Proof.
  intros H. split;
    [apply read_stdout_keeps_cursors | apply read_stderr_keeps_cursors];
    exact H.
Qed.

(** ** The end of a launcher *)

(** Traces compose along a sequence. *)
Lemma after_bind {A B : Type} (p : prog A) (k : A -> prog B)
    (tr tr' : list event) (a : A) (q : prog B) :
  after p tr (Ret a) -> after (k a) tr' q -> after (bind p k) (tr ++ tr') q.
Proof.
  intros H Hk. remember (Ret a) as e eqn:He.
  induction H as [p | R c k0 r tr q0 H IH].
  - subst p. exact Hk.
  - cbn [bind app]. apply after_cons. apply IH. exact He.
Qed.

(** [do_kill] on a running launcher, when all goes well. *)
Lemma do_kill_reaps (this : exec_path_args) (r ret : Z) (info : siginfo_t)
    (tv : Z * Z) :
  manages_process this = true -> current_state this = running ->
  0 <= r <= INT_MAX -> 0 <= ret <= INT_MAX ->
  si_pid info = handle this -> handle this <> 0 ->
  si_code info = CLD_EXITED \/ si_code info = CLD_KILLED
    \/ si_code info = CLD_DUMPED ->
  after (do_kill this)
    [Ev (sys_kill (handle this) SIGKILL) r;
     Ev (sys_waitid P_PID (handle this) siginfo_zero WEXITED) (ret, info);
     Ev (sys_clock_gettime CLOCK_MONOTONIC) tv]
    (Ret (returned tt, reaped info tv this)).
Proof.
  intros Hm Hst Hr Hret Hpid Hnz Hcode. destruct tv as [sec nsec].
  unfold do_kill, mbind, get_this; simpl. rewrite Hm, Hst; simpl.
  apply after_cons. unfold id. rewrite (syscall_helper_ok _ _ r Hr). simpl.
  unfold query_status, mbind, get_this; simpl. rewrite Hm, Hst; simpl.
  apply after_cons. simpl. rewrite (syscall_helper_ok _ _ ret Hret). simpl.
  rewrite Hpid.
  replace (handle this =? 0) with false by (symmetry; apply Z.eqb_neq; exact Hnz).
  replace ((si_code info =? CLD_EXITED) || (si_code info =? CLD_KILLED)
           || (si_code info =? CLD_DUMPED)) with true
    by (destruct Hcode as [-> | [-> | ->]]; reflexivity).
  rewrite Z.eqb_refl. simpl.
  apply after_cons. simpl. apply after_nil.
Qed.

(** The destructors of the three pipes of such a launcher. *)
Lemma pipes_dtor_trace (this : exec_path_args) (c3 c2 c1 : Z) :
  parent_ends this -> c3 <> -1 -> c2 <> -1 -> c1 <> -1 ->
  after (_ <- pipe_helper_dtor (stderr_pipe this) ;;
         _ <- pipe_helper_dtor (stdout_pipe this) ;;
         pipe_helper_dtor (stdin_pipe this))
    [Ev (sys_close (get_out (stderr_pipe this))) c3;
     Ev (sys_close (get_out (stdout_pipe this))) c2;
     Ev (sys_close (get_in (stdin_pipe this))) c1]
    (Ret tt).
Proof.
  intros [H1 [H2 [H3 [H4 [H5 H6]]]]] Hc3 Hc2 Hc1.
  unfold pipe_helper_dtor, close_out, close_in, get_out, get_in in *.
  cbn [fds0 fds1 bind].
  close_ok H5 Hc3. cbn [fds0 fds1]. rewrite H6, close_fd_invalid.
  cbn [bind fds0 fds1].
  close_ok H3 Hc2. cbn [fds0 fds1]. rewrite H4, close_fd_invalid.
  cbn [bind fds0 fds1].
  rewrite H1, close_fd_invalid. cbn [bind fds0 fds1].
  close_ok H2 Hc1. apply after_nil.
Qed.

(** X19. Destroying a launcher from which its state was moved does nothing:
    the destructor of the source of a move makes no call to the OS at all,
    so the process and the pipe ends that went to the new object are
    neither killed nor closed by it. *)
Theorem dtor_of_moved_from (rhs : exec_path_args) :
  exec_path_args_dtor (snd (exec_path_args_move rhs)) = Ret tt.
Proof.
  unfold exec_path_args_dtor, exec_path_args_move, pipe_helper_move,
    manages_process.
  cbn [snd handle]. rewrite Z.eqb_refl. cbn [negb bind].
  cbn [stderr_pipe stdout_pipe stdin_pipe].
  unfold pipe_helper_dtor, close_out, close_in. cbn [fds0 fds1].
  rewrite !close_fd_invalid. reflexivity.
Qed.

(** X20. Destroying a running launcher kills its process, waits for it
    without [WNOHANG], and then closes the pipe ends the launcher holds,
    those of stderr first and those of stdin last: the read end of stderr,
    the read end of stdout and the write end of stdin. *)
Theorem dtor_kills_reaps_closes (this : exec_path_args) (r ret : Z)
    (info : siginfo_t) (tv : Z * Z) (c3 c2 c1 : Z) :
  manages_process this = true -> current_state this = running ->
  parent_ends this ->
  0 <= r <= INT_MAX -> 0 <= ret <= INT_MAX ->
  si_pid info = handle this -> handle this <> 0 ->
  si_code info = CLD_EXITED \/ si_code info = CLD_KILLED
    \/ si_code info = CLD_DUMPED ->
  c3 <> -1 -> c2 <> -1 -> c1 <> -1 ->
  after (exec_path_args_dtor this)
    [Ev (sys_kill (handle this) SIGKILL) r;
     Ev (sys_waitid P_PID (handle this) siginfo_zero WEXITED) (ret, info);
     Ev (sys_clock_gettime CLOCK_MONOTONIC) tv;
     Ev (sys_close (get_out (stderr_pipe this))) c3;
     Ev (sys_close (get_out (stdout_pipe this))) c2;
     Ev (sys_close (get_in (stdin_pipe this))) c1]
    (Ret tt).
Proof.
  intros Hm Hst Hp Hr Hret Hpid Hnz Hcode Hc3 Hc2 Hc1.
  unfold exec_path_args_dtor. rewrite Hm.
  refine (after_bind _ _ [_; _; _] [_; _; _] _ _
            (do_kill_reaps this r ret info tv Hm Hst Hr Hret Hpid Hnz Hcode)
            _).
  cbn beta iota.
  exact (pipes_dtor_trace (reaped info tv this) c3 c2 c1 Hp Hc3 Hc2 Hc1).
Qed.

(** X21. When the [kill] of the destructor fails, the process of the caller
    is terminated: the error of the system call leaves [do_kill] as an
    exception, and the destructor is [noexcept].  No pipe end is closed
    before that. *)
Theorem dtor_terminates_when_kill_fails (this : exec_path_args)
    (r en : Z) (cause : std_string) :
  manages_process this = true -> current_state this = running ->
  INT_MIN <= r < 0 ->
  after (exec_path_args_dtor this)
    [Ev (sys_kill (handle this) SIGKILL) r;
     Ev get_errno en;
     Ev (libc_strerror en) cause]
    (Stop terminated).
Proof.
  intros Hm Hst Hr.
  unfold exec_path_args_dtor. rewrite Hm.
  unfold do_kill, mbind, get_this, os_call, lift, SYSCALL_HELPER, call.
  cbn [bind]. rewrite Hm, Hst. cbn [andb state_eqb bind].
  apply after_cons. unfold id. cbn [bind].
  unfold syscall_helper, check_syscall_ret_val.
  rewrite static_cast_int_id by (unfold INT_MIN, INT_MAX in *; lia).
  replace (r <? 0) with true by (symmetry; apply Z.ltb_lt; lia).
  unfold current_errno, call. cbn [bind].
  apply after_cons. cbn [bind]. apply after_cons. cbn [bind].
  apply after_nil.
Qed.

(** X22. Move assignment onto a running launcher ends the process the
    destination owned: it is killed and reaped and the pipe ends of the
    destination are closed, as by its destructor; after that the
    destination is what the source was, and the source owns nothing. *)
Theorem move_assign_ends_destination (m : store) (this_ rhs : address)
    (r ret : Z) (info : siginfo_t) (tv : Z * Z) (c3 c2 c1 : Z) :
  this_ <> rhs ->
  manages_process (m this_) = true -> current_state (m this_) = running ->
  parent_ends (m this_) ->
  0 <= r <= INT_MAX -> 0 <= ret <= INT_MAX ->
  si_pid info = handle (m this_) -> handle (m this_) <> 0 ->
  si_code info = CLD_EXITED \/ si_code info = CLD_KILLED
    \/ si_code info = CLD_DUMPED ->
  c3 <> -1 -> c2 <> -1 -> c1 <> -1 ->
  exists m',
    after (move_assign this_ rhs m)
      [Ev (sys_kill (handle (m this_)) SIGKILL) r;
       Ev (sys_waitid P_PID (handle (m this_)) siginfo_zero WEXITED)
         (ret, info);
       Ev (sys_clock_gettime CLOCK_MONOTONIC) tv;
       Ev (sys_close (get_out (stderr_pipe (m this_)))) c3;
       Ev (sys_close (get_out (stdout_pipe (m this_)))) c2;
       Ev (sys_close (get_in (stdin_pipe (m this_)))) c1]
      (Ret m')
    /\ m' this_ = m rhs
    /\ manages_process (m' rhs) = false
    /\ current_state (m' rhs) = uninitialzied
    /\ forall a, a <> this_ -> a <> rhs -> m' a = m a.
Proof.
  intros Hne Hm Hst Hp Hr Hret Hpid Hnz Hcode Hc3 Hc2 Hc1.
  unfold move_assign.
  replace (Nat.eqb this_ rhs) with false
    by (symmetry; apply Nat.eqb_neq; exact Hne).
  cbn [negb].
  destruct (exec_path_args_move (m rhs)) as [tmp rhs'] eqn:Emv.
  rewrite swap_eq.
  assert (Hthis : store_set m rhs rhs' this_ = m this_).
  { unfold store_set.
    replace (Nat.eqb this_ rhs) with false
      by (symmetry; apply Nat.eqb_neq; exact Hne).
    reflexivity. }
  rewrite Hthis.
  pose proof (exec_path_args_move_fst (m rhs)) as Hf.
  rewrite Emv in Hf. cbn [fst] in Hf. subst tmp.
  eexists. split; [| split; [| split; [| split]]].
  - assert (Hd : after (exec_path_args_dtor (m this_))
              [Ev (sys_kill (handle (m this_)) SIGKILL) r;
               Ev (sys_waitid P_PID (handle (m this_)) siginfo_zero WEXITED)
                 (ret, info);
               Ev (sys_clock_gettime CLOCK_MONOTONIC) tv;
               Ev (sys_close (get_out (stderr_pipe (m this_)))) c3;
               Ev (sys_close (get_out (stdout_pipe (m this_)))) c2;
               Ev (sys_close (get_in (stdin_pipe (m this_)))) c1]
              (Ret tt)).
    { unfold exec_path_args_dtor. rewrite Hm.
      refine (after_bind _ _ [_; _; _] [_; _; _] _ _
                (do_kill_reaps (m this_) r ret info tv Hm Hst Hr Hret Hpid
                   Hnz Hcode) _).
      cbn beta iota.
      exact (pipes_dtor_trace (reaped info tv (m this_)) c3 c2 c1 Hp
               Hc3 Hc2 Hc1). }
    pose proof (after_bind _ (fun _ : unit =>
                  Ret (store_set (store_set m rhs rhs') this_ (m rhs)))
                  _ [] tt _ Hd (after_nil _)) as Hb.
    rewrite app_nil_r in Hb. exact Hb.
  - unfold store_set. rewrite Nat.eqb_refl. reflexivity.
  - unfold store_set.
    replace (Nat.eqb rhs this_) with false
      by (symmetry; apply Nat.eqb_neq; congruence).
    rewrite Nat.eqb_refl.
    replace rhs' with (snd (exec_path_args_move (m rhs)))
      by (rewrite Emv; reflexivity).
    unfold exec_path_args_move, manages_process. cbn [snd handle].
    rewrite Z.eqb_refl. reflexivity.
  - unfold store_set.
    replace (Nat.eqb rhs this_) with false
      by (symmetry; apply Nat.eqb_neq; congruence).
    rewrite Nat.eqb_refl.
    replace rhs' with (snd (exec_path_args_move (m rhs)))
      by (rewrite Emv; reflexivity).
    reflexivity.
  - intros a Ha1 Ha2. unfold store_set.
    replace (Nat.eqb a this_) with false
      by (symmetry; apply Nat.eqb_neq; exact Ha1).
    replace (Nat.eqb a rhs) with false
      by (symmetry; apply Nat.eqb_neq; exact Ha2).
    reflexivity.
Qed.

(** ** Pipes, argument arrays and results out of range *)

(** X23. Move assignment of a pipe closes what the destination held and
    hands over what the source held: whatever the OS answers to the
    [close] calls, the destination ends up with both descriptors of the
    source, the source with none, and every other pipe as it was; when the
    destination held two open descriptors, exactly these two are closed,
    the read end first.  Assigning a pipe to itself does nothing. *)
Theorem pipe_helper_move_assign_transfers (m : pipe_store)
    (this_ rhs : address) :
  this_ <> rhs ->
  ensures (pipe_helper_move_assign this_ rhs m)
    (fun m' => m' this_ = m rhs
               /\ m' rhs = pipe_helper_default
               /\ forall a, a <> this_ -> a <> rhs -> m' a = m a)
    (fun _ => False)
  /\ (fds0 (m this_) <> invalid_fd -> fds1 (m this_) <> invalid_fd ->
      forall c0 c1, c0 <> -1 -> c1 <> -1 ->
      exists m',
        after (pipe_helper_move_assign this_ rhs m)
          [Ev (sys_close (fds0 (m this_))) c0;
           Ev (sys_close (fds1 (m this_))) c1]
          (Ret m'))
  /\ pipe_helper_move_assign this_ this_ m = Ret m.
Proof.
  intros Hne.
  assert (Hf : Nat.eqb this_ rhs = false) by (apply Nat.eqb_neq; exact Hne).
  assert (Hf' : Nat.eqb rhs this_ = false)
    by (apply Nat.eqb_neq; congruence).
  split; [| split].
  - unfold pipe_helper_move_assign. rewrite Hf. cbn [negb].
    unfold pipe_helper_move, swap_pipe_helper.
    apply ensures_bind.
    eapply ensures_weaken;
      [apply pipe_helper_dtor_never_stops | | intros ? []].
    intros _ _. cbn [ensures]. unfold pipe_store_set.
    rewrite Nat.eqb_refl, Hf', Nat.eqb_refl.
    split; [destruct (m rhs); reflexivity | split; [reflexivity |]].
    intros a Ha1 Ha2.
    replace (Nat.eqb a this_) with false
      by (symmetry; apply Nat.eqb_neq; exact Ha1).
    replace (Nat.eqb a rhs) with false
      by (symmetry; apply Nat.eqb_neq; exact Ha2).
    reflexivity.
  - intros H0 H1 c0 c1 Hc0 Hc1. eexists.
    unfold pipe_helper_move_assign. rewrite Hf. cbn [negb].
    unfold pipe_helper_move, swap_pipe_helper, pipe_store_set.
    rewrite Hf.
    unfold pipe_helper_dtor, close_out, close_in. cbn [fds0 fds1 bind].
    close_ok H0 Hc0. cbn [fds0 fds1].
    close_ok H1 Hc1. apply after_nil.
  - unfold pipe_helper_move_assign. rewrite Nat.eqb_refl. reflexivity.
Qed.

(** X24. The array of [build_args_cstr] is freed whole and no further: run
    on the array built for a path and [n] arguments, the loop of
    [my_cstr_arr_deleter] frees the [n + 1] copies made by [strdup], each
    once and in their order, and stops at the null pointer of the last
    cell: it reads no cell that was left unassigned and does not run off
    the array.  Given a null pointer, it frees nothing. *)
Theorem my_cstr_arr_deleter_frees_all (path : std_string)
    (args : list std_string) :
  my_cstr_arr_deleter (Some (build_args_cstr path args))
  = Some (map strdup (path :: args))
  /\ my_cstr_arr_deleter None = Some [].
Proof.
  split; [| reflexivity].
  rewrite build_args_cstr_eq. unfold my_cstr_arr_deleter.
  change (strdup path :: map strdup args ++ [nullptr])
    with (map strdup (path :: args) ++ [nullptr]).
  induction (path :: args) as [| a l IH].
  - reflexivity.
  - cbn [map app]. unfold strdup at 1. cbn [free_until_null].
    rewrite IH. reflexivity.
Qed.

(** X25. A fork that fails leaves three pipes behind: when the three [pipe]
    calls succeed and [fork] fails, [update_and_get_state] throws the error
    of the system call, no descriptor has been closed, and the launcher is
    still ready, now holding the six descriptors.  A further call begins
    with a new [pipe] call over the first pair: the descriptors held are
    not closed before they are overwritten. *)
Theorem fork_fails_after_pipes (timeout : Z) (this : exec_path_args)
    (r1 a1 b1 r2 a2 b2 r3 a3 b3 pid en : Z) (cause : std_string) :
  current_state this = ready ->
  0 <= r1 <= INT_MAX -> 0 <= r2 <= INT_MAX -> 0 <= r3 <= INT_MAX ->
  INT_MIN <= pid < 0 ->
  let this' :=
    set_stderr_pipe
      (set_stdout_pipe (set_stdin_pipe this (mk_pipe_helper a1 b1))
         (mk_pipe_helper a2 b2))
      (mk_pipe_helper a3 b3) in
  after (update_and_get_state timeout this)
    [Ev (sys_pipe (fds0 (stdin_pipe this), fds1 (stdin_pipe this)))
       (r1, (a1, b1));
     Ev (sys_pipe (fds0 (stdout_pipe this), fds1 (stdout_pipe this)))
       (r2, (a2, b2));
     Ev (sys_pipe (fds0 (stderr_pipe this), fds1 (stderr_pipe this)))
       (r3, (a3, b3));
     Ev sys_fork pid;
     Ev get_errno en;
     Ev (libc_strerror en) cause]
    (Ret (thrown (runtime_error SyscallError
                    (syscall_error_text FILE_exec_path_args 156 pid en cause)),
          this'))
  /\ current_state this' = ready
  /\ exists k, update_and_get_state timeout this' = Sys (sys_pipe (a1, b1)) k.
Proof.
  intros Hst H1 H2 H3 Hpid this'. subst this'.
  split; [| split].
  - unfold update_and_get_state. cbn [update_and_get_state_rec].
    rewrite Hst.
    unfold mbind, on_member, init, get_this, os_call, lift, SYSCALL_HELPER,
      call.
    cbn [bind].
    apply after_cons. cbn [bind].
    rewrite (syscall_helper_ok _ _ r1 H1). cbn [bind stdout_pipe set_stdin_pipe].
    apply after_cons. cbn [bind].
    rewrite (syscall_helper_ok _ _ r2 H2).
    cbn [bind stderr_pipe set_stdout_pipe set_stdin_pipe].
    apply after_cons. cbn [bind].
    rewrite (syscall_helper_ok _ _ r3 H3). cbn [bind].
    apply after_cons. unfold id. cbn [bind].
    unfold syscall_helper, check_syscall_ret_val.
    rewrite static_cast_int_id by (unfold INT_MIN, INT_MAX in *; lia).
    replace (pid <? 0) with true by (symmetry; apply Z.ltb_lt; lia).
    unfold current_errno, call. cbn [bind].
    apply after_cons. cbn [bind]. apply after_cons. cbn [bind].
    apply after_nil.
  - exact Hst.
  - unfold update_and_get_state. cbn [update_and_get_state_rec].
    cbn [current_state set_stderr_pipe set_stdout_pipe set_stdin_pipe].
    rewrite Hst.
    unfold mbind, on_member, init, call. cbn [bind stdin_pipe fds0 fds1].
    eexists. reflexivity.
Qed.

(** X26. The check of a result looks at its low 32 bits only.  A result of
    a wider type ([ssize_t], [long]) is converted to [int] before the test:
    a value that differs from an [int] [r] by a multiple of [2^32] is
    reported as a failure, with [r] in the message, when [r] is negative,
    and goes through unchanged when [r] is not. *)
Theorem syscall_helper_checks_low_bits (file : std_string) (line r k : Z) :
  INT_MIN <= r <= INT_MAX ->
  syscall_helper file line (r + k * 2 ^ 32)
  = if r <? 0 then
      Sys get_errno (fun errno_val =>
        Sys (libc_strerror errno_val) (fun cause =>
          Ret (thrown (runtime_error SyscallError
                         (syscall_error_text file line r errno_val cause)))))
    else Ret (returned (r + k * 2 ^ 32)).
Proof.
  intros Hr. unfold syscall_helper, check_syscall_ret_val.
  assert (Hc : static_cast_int (r + k * 2 ^ 32) = r).
  { unfold static_cast_int.
    replace (r + k * 2 ^ 32 + 2 ^ 31) with (r + 2 ^ 31 + k * 2 ^ 32) by lia.
    rewrite Z.mod_add by lia.
    unfold INT_MIN, INT_MAX in Hr. rewrite Z.mod_small by lia. lia. }
  rewrite Hc. destruct (r <? 0); reflexivity.
Qed.

(** The loop of [send_to_stdin] leaves the launcher as it is. *)
Lemma write_loop_keeps_this (fuel : nat) (data : std_string) :
  forall (data_size written : Z) (this : exec_path_args),
    ensures (write_loop fuel data data_size written this)
      (fun r => snd r = this) (fun why => why = out_of_fuel).
Proof.
  induction fuel as [| fuel IH]; intros data_size written this;
    cbn [write_loop]; destruct (written <? data_size);
    try reflexivity.
  mget. apply ensures_mbind.
  eapply ensures_weaken;
    [apply (@ensures_os_call exec_path_args Z) | | intros ? []].
  intros [[v | e] t]; cbn [fst snd]; intros [-> _]; [| reflexivity].
  apply IH.
Qed.

(** X27. What concerns the process leaves the output alone.  Whatever the
    OS answers, [update_and_get_state], [finish], [do_kill] and
    [close_stdin] leave both buffers and both cursors as they were, whether
    they return or throw, and [send_to_stdin] leaves the whole launcher as
    it was.  None of them ends the calling process, except in the child of
    a fork. *)
Theorem process_calls_keep_output (timeout : Z) (fuel : nat)
    (data : std_string) (this : exec_path_args) :
  ensures (update_and_get_state timeout this)
    (fun r => same_output this (snd r))
    (fun why => why = exited EXIT_FAILURE)
  /\ ensures (finish this)
       (fun r => same_output this (snd r))
       (fun why => why = exited EXIT_FAILURE)
  /\ ensures (do_kill this)
       (fun r => same_output this (snd r)) (fun _ => False)
  /\ ensures (close_stdin this)
       (fun r => same_output this (snd r)) (fun _ => False)
  /\ ensures (send_to_stdin fuel data this)
       (fun r => snd r = this) (fun why => why = out_of_fuel).
Proof.
  split; [| split; [| split; [| split]]].
  - apply update_and_get_state_same_output.
  - unfold finish, finish_and_get_prev_state.
    apply ensures_mbind. apply ensures_mbind.
    eapply ensures_weaken;
      [apply update_and_get_state_same_output | | auto].
    intros [[st | e] t] Ht; cbn [snd] in Ht; exact Ht.
  - unfold do_kill. mget.
    destruct (manages_process this && state_eqb (current_state this) running);
      [| apply same_output_refl].
    mstep (@ensures_os_call exec_path_args Z).
    intros [[r | e] t]; cbn [fst snd]; intros [-> _];
      [| apply same_output_refl].
    apply query_status_same_output.
  - unfold close_stdin. mget. apply ensures_mbind.
    destruct (negb (manages_process this)); [apply same_output_refl |].
    destruct (negb (state_eqb (current_state this) running)
              || (get_in (stdin_pipe this) =? invalid_fd));
      [apply same_output_refl |].
    unfold mret at 1. cbn [ensures].
    eapply ensures_weaken; [apply ensures_close_in | | auto].
    intros r ->. repeat split.
  - unfold send_to_stdin. mget. apply ensures_mbind.
    destruct (negb (manages_process this)); [reflexivity |].
    match goal with |- context [if ?c then _ else _] => destruct c end;
      [reflexivity |].
    match goal with |- context [if ?c then _ else _] => destruct c end;
      [reflexivity |].
    unfold mret at 1. cbn [ensures].
    apply write_loop_keeps_this.
Qed.

End LauncherProperties.

(** * The properties at work on the examples *)


Lemma syscall_helper_checks_witness :
  syscall_helper (lit "f.cxx") 12 3 = Ret (returned 3)
  /\ run script_os (syscall_helper (lit "f.cxx") 12 (-1)) []
     = (Done (thrown (runtime_error SyscallError
                        (lit "f.cxx:12: syscall failed - return code -1, errno 0 ~ "
                           ++ [dquote; dquote]))), []).
Proof.
  split.
  - apply (syscall_helper_checks (lit "f.cxx") 12 3); unfold INT_MIN, INT_MAX; lia.
  - rewrite (proj2 (syscall_helper_checks (lit "f.cxx") 12 (-1)
                      ltac:(unfold INT_MIN, INT_MAX; lia))) by lia.
    reflexivity.
Defined.

Lemma send_to_stdin_empty_witness :
  @send_to_stdin sentinel_minus_one 0%nat [] spawned = Ret (returned tt, spawned).
Proof.
  apply (@send_to_stdin_empty sentinel_minus_one 0%nat spawned).
  - reflexivity.
  - cbv. discriminate.
  - reflexivity.
Defined.

Lemma do_kill_acts_when_running_witness :
  @do_kill sentinel_minus_one (@exec_path_args_default sentinel_minus_one)
  = Ret (returned tt, @exec_path_args_default sentinel_minus_one)
  /\ exists this',
       after (@do_kill sentinel_minus_one spawned)
         [Ev (sys_kill 1000 SIGKILL) 0;
          Ev (sys_waitid P_PID 1000 siginfo_zero WEXITED)
            (0, mk_siginfo 1000 CLD_KILLED SIGKILL);
          Ev (sys_clock_gettime CLOCK_MONOTONIC) (2, 0)]
         (Ret (returned tt, this'))
       /\ current_state this' = finished
       /\ return_code this' = SIGKILL
       /\ handle this' = 1000.
Proof.
  split.
  - apply (@do_kill_acts_when_running sentinel_minus_one
             (@exec_path_args_default sentinel_minus_one)).
    reflexivity.
  - apply (proj2 (proj2 (@do_kill_acts_when_running sentinel_minus_one spawned)
                    eq_refl eq_refl)
             0 0 (mk_siginfo 1000 CLD_KILLED SIGKILL) (2, 0)).
    + unfold INT_MAX; lia.
    + unfold INT_MAX; lia.
    + reflexivity.
    + cbv. discriminate.
    + right; left; reflexivity.
Defined.

Lemma update_and_get_state_zero_timeout_witness :
  exists this' w',
    run script_os
      (@update_and_get_state sentinel_minus_one 0
         (@exec_path_args_new sentinel_minus_one (lit "/bin/cat") [lit "-"])) []
      = (Done (returned (mk_states ready running), this'), w')
    /\ current_state this' = running
    /\ handle this' = 1000.
Proof.
  apply (proj2 (@update_and_get_state_zero_timeout sentinel_minus_one _
                  script_os
                  (@exec_path_args_new sentinel_minus_one (lit "/bin/cat")
                     [lit "-"]) [] eq_refl)
           0 3 4 0 3 4 0 3 4 1000 [] [] [] []);
    try reflexivity; unfold INT_MAX; lia.
Defined.

Lemma move_leaves_source_uninitialized_witness :
  let src := snd (@exec_path_args_move sentinel_minus_one spawned) in
  let m' := @move_construct sentinel_minus_one 0%nat 1%nat two_launchers in
  m' 0%nat = spawned
  /\ m' 1%nat = src
  /\ stdin_pipe (m' 0%nat) = mk_pipe_helper invalid_fd 4
  /\ stdout_pipe (m' 0%nat) = mk_pipe_helper 5 invalid_fd
  /\ stderr_pipe (m' 0%nat) = mk_pipe_helper 7 invalid_fd
  /\ stdin_pipe src = mk_pipe_helper invalid_fd invalid_fd
  /\ stdout_pipe src = mk_pipe_helper invalid_fd invalid_fd
  /\ stderr_pipe src = mk_pipe_helper invalid_fd invalid_fd
  /\ handle src = -1
  /\ @manages_process sentinel_minus_one src = false
  /\ refused (@get_return_code sentinel_minus_one src) src
  /\ @do_kill sentinel_minus_one src = Ret (returned tt, src)
  /\ @exec_path_args_dtor sentinel_minus_one src = Ret tt.
Proof.
  pose proof (@move_leaves_source_uninitialized sentinel_minus_one
                two_launchers 0%nat 1%nat ltac:(discriminate)) as H.
  cbv zeta in H. change (two_launchers 1%nat) with spawned in H.
  cbv zeta. repeat split; apply H.
Defined.

Lemma increments_then_whole_witness :
  run script_os (@read_stdout_increments sentinel_minus_one 2%nat spawned)
    [lit "ab"; lit "c"; []]
  = (Done (returned [Some (lit "ab"); Some (lit "c")], after_increments), [[]])
  /\ run script_os (@read_stdout sentinel_minus_one true after_increments) [[]]
     = (Done (returned (mk_string_view 0 3), after_increments), [])
  /\ exists chunks last,
       [Some (lit "ab"); Some (lit "c")] = map Some chunks
       /\ stdout_buffer after_increments = stdout_buffer after_increments ++ last
       /\ sv_chars (stdout_buffer after_increments) (mk_string_view 0 3)
          = Some (stdout_buffer spawned ++ concat chunks ++ last).
Proof.
  assert (H1 : run script_os
                 (@read_stdout_increments sentinel_minus_one 2%nat spawned)
                 [lit "ab"; lit "c"; []]
               = (Done (returned [Some (lit "ab"); Some (lit "c")],
                        after_increments), [[]]))
    by (vm_compute; reflexivity).
  assert (H2 : run script_os
                 (@read_stdout sentinel_minus_one true after_increments) [[]]
               = (Done (returned (mk_string_view 0 3), after_increments), []))
    by (vm_compute; reflexivity).
  split; [exact H1 | split; [exact H2 |]].
  apply (@increments_then_whole sentinel_minus_one _ script_os 2%nat spawned
           after_increments after_increments
           [lit "ab"; lit "c"; []] [[]] []
           [Some (lit "ab"); Some (lit "c")] (mk_string_view 0 3)).
  - reflexivity.
  - vm_compute. discriminate.
  - exact H1.
  - exact H2.
Defined.

(** The sentence on incremental reads fails when the final read itself
    finds something to drain: after the increment "a", the whole is "ab". *)
Lemma increments_differ_from_whole :
  ~ @increments_equal_whole sentinel_minus_one _ script_os 1%nat spawned
      [lit "a"; lit "b"].
Proof.
  intros H.
  destruct (H [Some (lit "a")]
              (set_stdout_consumed_bytes 1 (set_stdout_buffer spawned (lit "a")))
              [lit "b"] (mk_string_view 0 2)
              (set_stdout_consumed_bytes 2 (set_stdout_buffer spawned (lit "ab")))
              [])
    as [chunks [Hrs Hv]].
  - vm_compute. reflexivity.
  - vm_compute. reflexivity.
  - destruct chunks as [| c1 [| c2 chunks]]; try discriminate Hrs.
    injection Hrs as <-. vm_compute in Hv. discriminate Hv.
Qed.

(** C1. [get_stdout] hands out the buffer and leaves it empty, but it does
    not touch the cursor.  On a launcher that has read "ab" in an increment
    (cursor 2), [get_stdout] returns "ab" and leaves an empty buffer with
    the cursor still at 2; when "c" arrives, the next [read_stdout (false)]
    does not return "c": its view starts at offset 2 of a buffer of one
    character, with a length of [2^64 - 1]. *)
Theorem get_stdout_keeps_cursor :
  run script_os (@get_stdout sentinel_minus_one spawned_and_read) [[]; lit "c"]
  = (Done (returned (lit "ab"), after_get_stdout), [lit "c"])
  /\ stdout_buffer after_get_stdout = []
  /\ stdout_consumed_bytes after_get_stdout = 2
  /\ run script_os (@read_stdout sentinel_minus_one false after_get_stdout)
       [lit "c"]
     = (Done (returned (mk_string_view 2 (2 ^ 64 - 1)),
              set_stdout_consumed_bytes 1
                (set_stdout_buffer after_get_stdout (lit "c"))), [])
  /\ sv_chars (lit "c") (mk_string_view 2 (2 ^ 64 - 1)) = None.
Proof.
  repeat split; vm_compute; reflexivity.
Qed.

(** C2. The cursor does not stay within the buffer: it does before the
    [get_stdout] above, and does not after it.  Nor does it in the source
    of a move, which keeps its cursor over a buffer that was moved away. *)
Theorem get_stdout_breaks_cursor_bound :
  cursors_within_buffers spawned_and_read
  /\ run script_os (@get_stdout sentinel_minus_one spawned_and_read) [[]]
     = (Done (returned (lit "ab"), after_get_stdout), [])
  /\ ~ cursors_within_buffers after_get_stdout
  /\ ~ cursors_within_buffers
         (snd (@exec_path_args_move sentinel_minus_one spawned_and_read)).
Proof.
  split; [| split; [| split]].
  - vm_compute. intuition discriminate.
  - vm_compute. reflexivity.
  - intros [[_ H] _]. vm_compute in H. apply H. reflexivity.
  - intros [[_ H] _]. vm_compute in H. apply H. reflexivity.
Qed.

(** The loop of [send_to_stdin] at work: the OS of the examples takes all
    that it is given at once, and one round is enough. *)
Example send_to_stdin_one_round :
  run script_os (@send_to_stdin sentinel_minus_one 1 (lit "hi") spawned) []
  = (Done (returned tt, spawned), []).
Proof. vm_compute. reflexivity. Qed.

(** A whole life on the OS of the examples: spawn and wait in one call, then
    the return code is that of the kill signal. *)
Example spawn_and_finish :
  exists this',
    run script_os
      (@update_and_get_state sentinel_minus_one (-1)
         (@exec_path_args_new sentinel_minus_one (lit "/bin/cat") [lit "-"]))
      []
    = (Done (returned (mk_states ready finished), this'), [])
    /\ @get_return_code sentinel_minus_one this'
       = Ret (returned SIGKILL, this').
Proof. eexists. split; vm_compute; reflexivity. Qed.

(** ** The further properties at work *)

Ltac at_example :=
  first [ reflexivity
        | unfold INT_MIN, INT_MAX; lia
        | cbv; discriminate
        | left; reflexivity
        | right; left; reflexivity ].

Lemma finished_is_absorbing_witness :
  @update_and_get_state sentinel_minus_one 0 spawned_and_reaped
  = Ret (returned (mk_states finished finished), spawned_and_reaped)
  /\ @finish sentinel_minus_one spawned_and_reaped
     = Ret (returned tt, spawned_and_reaped).
Proof.
  apply (proj1 (@finished_is_absorbing sentinel_minus_one 0
                  spawned_and_reaped eq_refl)).
  reflexivity.
Defined.

Lemma running_and_not_ready_witness :
  after (@update_and_get_state sentinel_minus_one 5 spawned)
    [Ev (sys_syscall SYS_pidfd_open 1000 0) 9;
     Ev (sys_poll 9 POLLIN 5) 0]
    (Ret (returned (mk_states running running), spawned)).
Proof.
  apply (@running_and_not_ready sentinel_minus_one 5 spawned 9 0);
    at_example.
Defined.

Lemma running_and_reaped_witness :
  after (@update_and_get_state sentinel_minus_one 0 spawned)
    [Ev (sys_syscall SYS_pidfd_open 1000 0) 9;
     Ev (sys_poll 9 POLLIN 0) 1;
     Ev (sys_waitid P_PID 1000 siginfo_zero (Z.lor WEXITED WNOHANG))
       (0, mk_siginfo 1000 CLD_EXITED 7);
     Ev (sys_clock_gettime CLOCK_MONOTONIC) (2, 0)]
    (Ret (returned (mk_states running finished), spawned_and_reaped))
  /\ @get_return_code sentinel_minus_one spawned_and_reaped
     = Ret (returned 7, spawned_and_reaped)
  /\ @time_running_ms sentinel_minus_one spawned_and_reaped
     = Ret (returned (time_diff_ms 2000000000 1000000000),
            spawned_and_reaped).
Proof.
  apply (@running_and_reaped sentinel_minus_one 0 spawned 9 0
           (mk_siginfo 1000 CLD_EXITED 7) (2, 0));
    at_example.
Defined.

(** A reading of the clock whose nanoseconds do not fit 64 bits: the value
    wraps around. *)
Example now_ns_wraps_around :
  after now_ns [Ev (sys_clock_gettime CLOCK_MONOTONIC) (9223372037, 0)]
    (Ret (-9223372036709551616)).
Proof. unfold now_ns, call. cbn [bind]. apply after_cons. apply after_nil. Qed.

Lemma blocking_wait_without_end_witness :
  after (@update_and_get_state sentinel_minus_one (-1) spawned)
    [Ev (sys_syscall SYS_pidfd_open 1000 0) 9;
     Ev (sys_poll 9 POLLIN (-1)) 0]
    (Ret (thrown
            (runtime_error Fatal
               (lit "failed to wait for child process to finish without any timeout!")),
          spawned)).
Proof.
  apply (@blocking_wait_without_end sentinel_minus_one (-1) spawned 9 0 0
           siginfo_zero);
    at_example.
Defined.

Lemma reap_of_another_pid_witness :
  after (@update_and_get_state sentinel_minus_one 0 spawned)
    [Ev (sys_syscall SYS_pidfd_open 1000 0) 9;
     Ev (sys_poll 9 POLLIN 0) 1;
     Ev (sys_waitid P_PID 1000 siginfo_zero (Z.lor WEXITED WNOHANG))
       (0, mk_siginfo 1001 CLD_EXITED 0)]
    (Ret (thrown
            (runtime_error Fatal
               (lit "waitid returned unexpected pid - different from the managed one!")),
          spawned)).
Proof.
  apply (@reap_of_another_pid sentinel_minus_one 0 spawned 9 0
           (mk_siginfo 1001 CLD_EXITED 0));
    at_example.
Defined.

Lemma spawn_keeps_parent_ends_witness :
  exists this' w',
    run script_os
      (@update_and_get_state sentinel_minus_one 0
         (@exec_path_args_new sentinel_minus_one (lit "/bin/cat") [lit "-"])) []
      = (Done (returned (mk_states ready running), this'), w')
    /\ stdin_pipe this' = mk_pipe_helper invalid_fd 4
    /\ stdout_pipe this' = mk_pipe_helper 3 invalid_fd
    /\ stderr_pipe this' = mk_pipe_helper 3 invalid_fd
    /\ handle this' = 1000
    /\ path this' = lit "/bin/cat" /\ args this' = [lit "-"]
    /\ same_output
         (@exec_path_args_new sentinel_minus_one (lit "/bin/cat") [lit "-"])
         this'.
Proof.
  apply (@spawn_keeps_parent_ends sentinel_minus_one _ script_os
           (@exec_path_args_new sentinel_minus_one (lit "/bin/cat") [lit "-"])
           [] 0 3 4 0 3 4 0 3 4 1000 [] [] [] []);
    at_example.
Defined.

Lemma child_redirects_then_execs_witness :
  after (@exec_in_child unit
           (build_args_cstr (lit "/bin/cat") [lit "-"]) in_child)
    [Ev (sys_close 4) 0; Ev (sys_dup2 3 STDIN_FILENO) 0;
     Ev (sys_close 5) 0; Ev (sys_dup2 6 STDOUT_FILENO) 1;
     Ev (sys_close 7) 0; Ev (sys_dup2 8 STDERR_FILENO) 2;
     Ev (sys_execv (ptr_to (lit "/bin/cat"))
           (build_args_cstr (lit "/bin/cat") [lit "-"])) (-1);
     Ev get_errno 2; Ev (libc_strerror 2) (lit "No such file or directory");
     Ev (cerr_write (lit "child process failed - caught exception: ")) tt;
     Ev (cerr_write
           (syscall_error_text FILE_exec_path_args 348 (-1) 2
              (lit "No such file or directory"))) tt;
     Ev (cerr_write [LF]) tt]
    (Stop (exited EXIT_FAILURE)).
Proof.
  apply (proj1 (@child_redirects_then_execs in_child
                  0 0 0 1 0 2 (-1) 2 (lit "No such file or directory")
                  ltac:(at_example) ltac:(at_example) ltac:(at_example)
                  ltac:(at_example) ltac:(at_example) ltac:(at_example)
                  ltac:(at_example) ltac:(at_example) ltac:(at_example)));
    at_example.
Defined.

Lemma send_to_stdin_delivers_witness :
  exists limits',
    run partial_write_os
      (@send_to_stdin sentinel_minus_one 2 (lit "hi") spawned) ([], [0%nat])
    = (Done (returned tt, spawned), (lit "hi", limits')).
Proof.
  apply (@send_to_stdin_delivers sentinel_minus_one 2 (lit "hi") [0%nat]
           spawned);
    first [at_example | vm_compute; lia | cbn; lia].
Defined.

Lemma send_to_stdin_write_fails_witness :
  after (@send_to_stdin sentinel_minus_one 1 (lit "hi") spawned)
    [Ev (sys_write 4 (lit "hi") 2) (-1);
     Ev get_errno 32; Ev (libc_strerror 32) (lit "Broken pipe")]
    (Ret (thrown (runtime_error SyscallError
                    (syscall_error_text FILE_exec_path_args 247 (-1) 32
                       (lit "Broken pipe"))),
          spawned)).
Proof.
  apply (@send_to_stdin_write_fails sentinel_minus_one 0 (lit "hi") spawned
           (-1) 32 (lit "Broken pipe"));
    at_example.
Defined.

Lemma close_stdin_once_witness :
  let closed := set_stdin_pipe spawned (mk_pipe_helper invalid_fd invalid_fd) in
  (exists w',
     run script_os (@close_stdin sentinel_minus_one spawned) []
     = (Done (returned tt, closed), w'))
  /\ refused (@close_stdin sentinel_minus_one closed) closed
  /\ forall fuel data,
       refused (@send_to_stdin sentinel_minus_one fuel data closed) closed.
Proof.
  pose proof (@close_stdin_once sentinel_minus_one _ script_os spawned []
                eq_refl ltac:(at_example) eq_refl) as H.
  cbv zeta in H. cbv zeta. repeat split; apply H.
Defined.

Lemma read_stdout_nothing_available_witness :
  after (@read_stdout sentinel_minus_one false spawned_and_read)
    [Ev (sys_ioctl 5 FIONREAD 0) (0, 0)]
    (Ret (returned (mk_string_view 2 0), spawned_and_read)).
Proof.
  apply (@read_stdout_nothing_available sentinel_minus_one false
           spawned_and_read 0 0);
    at_example.
Defined.

Lemma read_stdout_short_read_witness :
  after (@read_stdout sentinel_minus_one false spawned)
    [Ev (sys_ioctl 5 FIONREAD 0) (0, 3);
     Ev (sys_read 5 3) (2, lit "ab")]
    (Ret (thrown
            (runtime_error ShortRead
               (lit "failed to read all available bytes from given pipe!")),
          set_stdout_buffer spawned (lit "ab" ++ [NUL]))).
Proof.
  apply (@read_stdout_short_read sentinel_minus_one false spawned 0 3 2
           (lit "ab"));
    at_example.
Defined.

Lemma read_stdout_after_read_witness :
  exists chunk,
    stdout_buffer after_increments = stdout_buffer spawned_and_read ++ chunk
    /\ sv_chars (stdout_buffer after_increments) (mk_string_view 2 1)
       = Some chunk
    /\ stdout_consumed_bytes after_increments
       = size (stdout_buffer after_increments).
Proof.
  apply (@read_stdout_after_read sentinel_minus_one _ script_os true
           spawned spawned_and_read after_increments
           [lit "ab"; lit "c"] [lit "c"] []
           (mk_string_view 0 2) (mk_string_view 2 1)).
  - vm_compute. discriminate.
  - vm_compute. reflexivity.
  - vm_compute. reflexivity.
Defined.

Lemma read_whole_after_get_stdout_witness :
  let this2 :=
    set_stdout_consumed_bytes 1 (set_stdout_buffer after_get_stdout (lit "c")) in
  stdout_buffer after_get_stdout = []
  /\ sv_chars (stdout_buffer this2) (mk_string_view 0 1)
     = Some (stdout_buffer this2)
  /\ stdout_consumed_bytes this2 = size (stdout_buffer this2)
  /\ exists arrived, lit "ab" = stdout_buffer spawned_and_read ++ arrived.
Proof.
  apply (@read_whole_after_get_stdout sentinel_minus_one _ script_os
           spawned_and_read after_get_stdout
           (set_stdout_consumed_bytes 1
              (set_stdout_buffer after_get_stdout (lit "c")))
           [[]; lit "c"] [lit "c"] []
           (lit "ab") (mk_string_view 0 1)).
  - vm_compute. reflexivity.
  - vm_compute. reflexivity.
Defined.

Lemma reads_keep_cursors_witness :
  ensures (@read_stdout sentinel_minus_one false spawned_and_read)
    (fun r => cursors_within_buffers (snd r)) (fun _ => False).
Proof.
  apply (@reads_keep_cursors sentinel_minus_one false spawned_and_read).
  unfold cursors_within_buffers. vm_compute. repeat split; discriminate.
Defined.

Lemma dtor_kills_reaps_closes_witness :
  after (@exec_path_args_dtor sentinel_minus_one spawned)
    [Ev (sys_kill 1000 SIGKILL) 0;
     Ev (sys_waitid P_PID 1000 siginfo_zero WEXITED)
       (0, mk_siginfo 1000 CLD_KILLED SIGKILL);
     Ev (sys_clock_gettime CLOCK_MONOTONIC) (2, 0);
     Ev (sys_close 7) 0; Ev (sys_close 5) 0; Ev (sys_close 4) 0]
    (Ret tt).
Proof.
  apply (@dtor_kills_reaps_closes sentinel_minus_one spawned 0 0
           (mk_siginfo 1000 CLD_KILLED SIGKILL) (2, 0) 0 0 0);
    first [at_example | repeat split; at_example].
Defined.

Lemma dtor_terminates_when_kill_fails_witness :
  after (@exec_path_args_dtor sentinel_minus_one spawned)
    [Ev (sys_kill 1000 SIGKILL) (-1);
     Ev get_errno 3; Ev (libc_strerror 3) (lit "No such process")]
    (Stop terminated).
Proof.
  apply (@dtor_terminates_when_kill_fails sentinel_minus_one spawned (-1) 3
           (lit "No such process"));
    at_example.
Defined.

Lemma move_assign_ends_destination_witness :
  exists m',
    after (@move_assign sentinel_minus_one 1%nat 0%nat two_launchers)
      [Ev (sys_kill 1000 SIGKILL) 0;
       Ev (sys_waitid P_PID 1000 siginfo_zero WEXITED)
         (0, mk_siginfo 1000 CLD_KILLED SIGKILL);
       Ev (sys_clock_gettime CLOCK_MONOTONIC) (2, 0);
       Ev (sys_close 7) 0; Ev (sys_close 5) 0; Ev (sys_close 4) 0]
      (Ret m')
    /\ m' 1%nat = two_launchers 0%nat
    /\ @manages_process sentinel_minus_one (m' 0%nat) = false
    /\ current_state (m' 0%nat) = uninitialzied
    /\ forall a, a <> 1%nat -> a <> 0%nat -> m' a = two_launchers a.
Proof.
  apply (@move_assign_ends_destination sentinel_minus_one two_launchers
           1%nat 0%nat 0 0 (mk_siginfo 1000 CLD_KILLED SIGKILL) (2, 0) 0 0 0);
    first [at_example | discriminate | repeat split; at_example].
Defined.

Lemma pipe_helper_move_assign_transfers_witness :
  exists m',
    after (pipe_helper_move_assign 0%nat 1%nat two_pipes)
      [Ev (sys_close 3) 0; Ev (sys_close 4) 0]
      (Ret m').
Proof.
  apply (proj1 (proj2 (pipe_helper_move_assign_transfers two_pipes
                          0%nat 1%nat ltac:(discriminate))));
    at_example.
Defined.

Lemma fork_fails_after_pipes_witness :
  let new := @exec_path_args_new sentinel_minus_one (lit "/bin/cat") [lit "-"] in
  let this' :=
    set_stderr_pipe
      (set_stdout_pipe (set_stdin_pipe new (mk_pipe_helper 3 4))
         (mk_pipe_helper 5 6))
      (mk_pipe_helper 7 8) in
  after (@update_and_get_state sentinel_minus_one 0 new)
    [Ev (sys_pipe (invalid_fd, invalid_fd)) (0, (3, 4));
     Ev (sys_pipe (invalid_fd, invalid_fd)) (0, (5, 6));
     Ev (sys_pipe (invalid_fd, invalid_fd)) (0, (7, 8));
     Ev sys_fork (-1);
     Ev get_errno 11;
     Ev (libc_strerror 11) (lit "Resource temporarily unavailable")]
    (Ret (thrown (runtime_error SyscallError
                    (syscall_error_text FILE_exec_path_args 156 (-1) 11
                       (lit "Resource temporarily unavailable"))),
          this'))
  /\ current_state this' = ready
  /\ exists k,
       @update_and_get_state sentinel_minus_one 0 this'
       = Sys (sys_pipe (3, 4)) k.
Proof.
  apply (@fork_fails_after_pipes sentinel_minus_one 0
           (@exec_path_args_new sentinel_minus_one (lit "/bin/cat") [lit "-"])
           0 3 4 0 5 6 0 7 8 (-1) 11
           (lit "Resource temporarily unavailable"));
    at_example.
Defined.

Lemma syscall_helper_checks_low_bits_witness :
  syscall_helper (lit "f.cxx") 12 (2 ^ 32 - 1)
  = Sys get_errno (fun errno_val =>
      Sys (libc_strerror errno_val) (fun cause =>
        Ret (thrown (runtime_error SyscallError
                       (syscall_error_text (lit "f.cxx") 12 (-1) errno_val
                          cause)))))
  /\ syscall_helper (lit "f.cxx") 12 (2 ^ 32) = Ret (returned (2 ^ 32)).
Proof.
  split.
  - apply (syscall_helper_checks_low_bits (lit "f.cxx") 12 (-1) 1).
    unfold INT_MIN, INT_MAX; lia.
  - apply (syscall_helper_checks_low_bits (lit "f.cxx") 12 0 1).
    unfold INT_MIN, INT_MAX; lia.
Defined.
